(** * EGFR model calibration: a shallow embedding and its properties

    The development embeds the two Python modules of the repository:

    - [calibration_A431_highEGF.py], the script that fits the model to the
      Chen/Sorger 2009 data (modules [Float], [Numpy], [Calibration]);
    - [chen_modules.py], the PySB declaration of the ErbB receptor layer
      (modules [Pysb], [ChenModules], and [ReceptorView] for what the
      declared rules let one receptor do).

    Module [Spec] states the properties entry by entry; the proofs follow.
    The ODE solver, the sampler, [numpy.log10], the data files and the
    imported model are outside the two modules and appear as parameters.

    Numbers.  A numpy [float64] is modelled as an exact rational extended
    with the IEEE special values [+inf], [-inf] and [NaN]; arithmetic on the
    special values follows IEEE 754 as numpy applies it (a division by zero
    yields an infinity or [NaN], it does not raise).  Rounding, overflow to
    infinity and the sign of zero are abstracted away.  Every finite result
    is kept in lowest terms, so equal results are syntactically equal.
    The script is read as Python 3: [/] on two integers is true division
    and yields a float, and an integer beyond the range of a float raises
    [OverflowError] where it is converted to one. *)

From Stdlib Require Import ZArith QArith Qreduction Lia Lqa.
From stdpp Require Import base option list strings gmap.


(* ===================================================================== *)
(** * Floating-point values *)
(* ===================================================================== *)

Module Float.

Inductive float64 : Type :=
  | Fin (q : Q)
  | PInf
  | NInf
  | NaN.

Definition Qsgn (q : Q) : Z := Z.sgn (Qnum q).

Definition inf_of_sign (s : Z) : float64 :=
  match s with
  | Z0 => NaN
  | Zpos _ => PInf
  | Zneg _ => NInf
  end.

Definition of_Z (z : Z) : float64 := Fin (inject_Z z).

Definition fzero : float64 := Fin 0.
Definition fone : float64 := Fin 1.

Definition fadd (x y : float64) : float64 :=
  match x, y with
  | NaN, _ | _, NaN => NaN
  | Fin a, Fin b => Fin (Qred (a + b))
  | PInf, NInf | NInf, PInf => NaN
  | PInf, _ | _, PInf => PInf
  | NInf, _ | _, NInf => NInf
  end.

Definition fsub (x y : float64) : float64 :=
  match x, y with
  | NaN, _ | _, NaN => NaN
  | Fin a, Fin b => Fin (Qred (a - b))
  | PInf, PInf | NInf, NInf => NaN
  | PInf, _ | _, NInf => PInf
  | NInf, _ | _, PInf => NInf
  end.

Definition fmul (x y : float64) : float64 :=
  match x, y with
  | NaN, _ | _, NaN => NaN
  | Fin a, Fin b => Fin (Qred (a * b))
  | Fin a, PInf | PInf, Fin a => inf_of_sign (Qsgn a)
  | Fin a, NInf | NInf, Fin a => inf_of_sign (- Qsgn a)
  | PInf, PInf | NInf, NInf => PInf
  | PInf, NInf | NInf, PInf => NInf
  end.

(** numpy's true division: dividing by zero is not an exception. *)
Definition fdiv (x y : float64) : float64 :=
  match x, y with
  | NaN, _ | _, NaN => NaN
  | Fin a, Fin b =>
      if Qeq_bool b 0 then inf_of_sign (Qsgn a) else Fin (Qred (a / b))
  | Fin _, (PInf | NInf) => Fin 0
  | PInf, Fin b => if (Qsgn b <? 0)%Z then NInf else PInf
  | NInf, Fin b => if (Qsgn b <? 0)%Z then PInf else NInf
  | (PInf | NInf), (PInf | NInf) => NaN
  end.

(** [x ** 2] *)
Definition fsquare (x : float64) : float64 := fmul x x.

(** Comparisons; any comparison with [NaN] is false. *)
Definition fle (x y : float64) : bool :=
  match x, y with
  | NaN, _ | _, NaN => false
  | Fin a, Fin b => Qle_bool a b
  | NInf, _ | _, PInf => true
  | _, _ => false
  end.

Definition flt (x y : float64) : bool :=
  match x, y with
  | NaN, _ | _, NaN => false
  | Fin a, Fin b => negb (Qle_bool b a)
  | PInf, _ | _, NInf => false
  | _, _ => true
  end.

(** [numpy.minimum] / [numpy.maximum], the binary operations behind
    [ndarray.min] and [ndarray.max]: a [NaN] operand wins. *)
Definition fmin (x y : float64) : float64 :=
  match x, y with
  | NaN, _ | _, NaN => NaN
  | _, _ => if fle x y then x else y
  end.

Definition fmax (x y : float64) : float64 :=
  match x, y with
  | NaN, _ | _, NaN => NaN
  | _, _ => if fle x y then y else x
  end.

Definition is_finite (x : float64) : bool :=
  match x with Fin _ => true | _ => false end.

(** The value lies in the closed interval [[0, 1]]. *)
Definition in_unit_interval (x : float64) : Prop :=
  match x with
  | Fin q => (0 <= q /\ q <= 1)%Q
  | _ => False
  end.

End Float.

(* ===================================================================== *)
(** * The part of numpy the script uses *)
(* ===================================================================== *)

Module Numpy.
Import Float.

(** Python exceptions the modelled code can raise. *)
Inductive exn : Type :=
  | ValueError
  | IndexError
  | ZeroDivisionError
  | OverflowError
  | TypeError
  | RuntimeError (msg : string)
  | LibraryError (msg : string).

Inductive result (A : Type) : Type :=
  | Ok (a : A)
  | Raise (e : exn).
Arguments Ok {A} a.
Arguments Raise {A} e.

Definition rbind {A B} (r : result A) (f : A -> result B) : result B :=
  match r with
  | Ok a => f a
  | Raise e => Raise e
  end.

Declare Scope result_scope.
Delimit Scope result_scope with result.
Notation "x <- r ;; k" := (rbind r (fun x => k))
  (at level 100, r at next level, right associativity) : result_scope.

Definition is_ok {A} (r : result A) : bool :=
  match r with Ok _ => true | Raise _ => false end.

(** A one-dimensional array is a list; a two-dimensional array is the list
    of its rows.  An array with no rows does not record its column count;
    the script never computes with one, since [min(0)] rejects it first. *)
Abbreviation vector := (list float64).
Abbreviation matrix := (list (list float64)).

Definition nrows (m : matrix) : nat := length m.
Definition ncols (m : matrix) : nat := length (default [] (head m)).
Definition shape (m : matrix) : nat * nat := (nrows m, ncols m).

(** Every row has [c] entries. *)
Definition rectangular (c : nat) (m : matrix) : Prop :=
  Forall (fun r => length r = c) m.

(** Entry at row [t], column [k]. *)
Definition entry (m : matrix) (t k : nat) : option float64 :=
  m !! t ≫= fun r => r !! k.

(** [numpy.vstack] of a list of one-dimensional arrays: each becomes a row.
    An empty list, or rows of different lengths, raise [ValueError]. *)
Definition vstack (arrs : list vector) : result matrix :=
  match arrs with
  | [] => Raise ValueError
  | a :: rest =>
      if forallb (fun b => length b =? length a) rest
      then Ok arrs else Raise ValueError
  end.

(** [m.T] *)
Definition transpose (m : matrix) : matrix :=
  foldr (zip_with cons) (replicate (ncols m) []) m.

(** Reduction along axis 0 ([m.min(0)], [m.max(0)]): one value per column.
    numpy raises [ValueError] when there is no row to start from. *)
Definition reduce0 (f : float64 -> float64 -> float64) (m : matrix)
  : result vector :=
  match m with
  | [] => Raise ValueError
  | r :: rest => Ok (foldl (zip_with f) r rest)
  end.

Definition amin0 : matrix -> result vector := reduce0 fmin.
Definition amax0 : matrix -> result vector := reduce0 fmax.

(** Broadcasting of one dimension: equal extents, or one of them is 1. *)
Definition broadcast_dim (a b : nat) : option nat :=
  if a =? b then Some a
  else if a =? 1 then Some b
  else if b =? 1 then Some a
  else None.

(** Stretch an axis of extent 1 to extent [n]; other axes are left alone. *)
Definition stretch {A} (n : nat) (l : list A) : list A :=
  match l with
  | [x] => replicate n x
  | _ => l
  end.

(** Elementwise binary operation on one-dimensional arrays. *)
Definition vec_binop (f : float64 -> float64 -> float64) (a b : vector)
  : result vector :=
  match broadcast_dim (length a) (length b) with
  | Some n => Ok (zip_with f (stretch n a) (stretch n b))
  | None => Raise ValueError
  end.

(** Elementwise binary operation on two-dimensional arrays. *)
Definition binop (f : float64 -> float64 -> float64) (a b : matrix)
  : result matrix :=
  match broadcast_dim (nrows a) (nrows b), broadcast_dim (ncols a) (ncols b) with
  | Some r, Some c =>
      Ok (zip_with (fun ra rb => zip_with f (stretch c ra) (stretch c rb))
            (stretch r a) (stretch r b))
  | _, _ => Raise ValueError
  end.

(** A one-dimensional operand of a two-dimensional operation is read as a
    single row. *)
Definition atleast_2d (v : vector) : matrix := [v].

(** Operations with a scalar operand. *)
Definition map_matrix (f : float64 -> float64) (m : matrix) : matrix :=
  map (map f) m.

(** [numpy.sum] of all the entries. *)
Definition vsum (v : vector) : float64 := foldl fadd fzero v.
Definition msum (m : matrix) : float64 := vsum (concat m).

(** Integer-array indexing [a[idx]]. *)
Fixpoint take_indices (a : vector) (idx : list nat) : result vector :=
  match idx with
  | [] => Ok []
  | i :: idx' =>
      match a !! i with
      | None => Raise IndexError
      | Some x => rbind (take_indices a idx') (fun xs => Ok (x :: xs))
      end
  end.

(** A record array: named columns over the same records.  [r[name]] is the
    column of that field; an unknown field raises [ValueError]. *)
Abbreviation recarray := (list (string * list float64)).

Fixpoint field (r : recarray) (name : string) : result vector :=
  match r with
  | [] => Raise ValueError
  | (n, col) :: r' => if String.eqb n name then Ok col else field r' name
  end.

(** All the columns hold [n] records. *)
Definition records (n : nat) (r : recarray) : Prop :=
  Forall (fun nc => length nc.2 = n) r.

(** [[f(x) for x in xs]] where [f] may raise. *)
Fixpoint map_result {A B} (f : A -> result B) (xs : list A) : result (list B) :=
  match xs with
  | [] => Ok []
  | x :: xs' =>
      rbind (f x) (fun y => rbind (map_result f xs') (fun ys => Ok (y :: ys)))
  end.

End Numpy.

(* ===================================================================== *)
(** * The part of PySB the model declaration uses *)
(* ===================================================================== *)

Module Pysb.

(** What a pattern says about one site: [site=None], [site=n] (a bond
    number), [site=ANY], or [site='X'] (a state). *)
Inductive site_cond : Type :=
  | SNone
  | SBond (n : nat)
  | SAny
  | SState (s : string).

#[global] Instance site_cond_eq_dec : EqDecision site_cond.
Proof. solve_decision. Defined.

(** [erbb(ty='1', b=None)]: a monomer and its site conditions, in the
    order they are written. *)
Record MonomerPattern : Type := MP {
  mp_monomer : string;
  mp_sites : list (string * site_cond)
}.

#[global] Instance MonomerPattern_eq_dec : EqDecision MonomerPattern.
Proof. solve_decision. Defined.

(** Monomer patterns joined by [%]. *)
Abbreviation ComplexPattern := (list MonomerPattern).
(** Complex patterns joined by [+]; [None] is the empty list. *)
Abbreviation ReactionPattern := (list (list MonomerPattern)).

(** A component is named by the declaration, or by the macro that
    generates it; the macro derives a name from the rule's patterns and a
    suffix, and that derivation is kept symbolic. *)
Inductive comp_name : Type :=
  | Named (s : string)
  | Generated (macro : string) (pattern : ReactionPattern) (suffix : string).

#[global] Instance comp_name_eq_dec : EqDecision comp_name.
Proof. solve_decision. Defined.

Record Param : Type := mkParam {
  p_name : comp_name;
  p_value : Q
}.

Record Monomer : Type := {
  m_name : string;
  m_sites : list string;
  m_site_states : list (string * list string)
}.

Record Rule : Type := {
  r_name : comp_name;
  r_reactants : ReactionPattern;
  r_products : ReactionPattern;
  r_reversible : bool;
  r_rate_forward   : Param;
  r_rate_reverse : option Param
}.

Record Initial : Type := {
  i_pattern : ComplexPattern;
  i_value   : Param
}.

(** The model under construction; declarations append to it. *)
Record Model : Type := {
  monomers : list Monomer;
  parameters : list Param;
  rules : list Rule;
  initial_conditions : list Initial
}.

Definition empty_model : Model :=
  {| monomers := []; parameters := []; rules := []; initial_conditions := [] |}.

(** A declaration updates the model; a block runs declarations in order. *)
Definition decl : Type := Model -> Model.

Definition block (ds : list decl) : decl :=
  fun m => foldl (fun m d => d m) m ds.

(** [for x in xs: body] *)
Definition for_each {A} (xs : list A) (body : A -> decl) : decl :=
  fun m => foldl (fun m x => body x m) m xs.

Definition add_monomer (mo : Monomer) : decl := fun m =>
  {| monomers := monomers m ++ [mo]; parameters := parameters m;
     rules := rules m; initial_conditions := initial_conditions m |}.

Definition add_parameter (p   : Param) : decl := fun m =>
  {| monomers := monomers m; parameters := parameters m ++ [p];
     rules := rules m; initial_conditions := initial_conditions m |}.

Definition add_rule (r : Rule) : decl := fun m =>
  {| monomers := monomers m; parameters := parameters m;
     rules := rules m ++ [r]; initial_conditions := initial_conditions m |}.

Definition add_initial (i : Initial) : decl := fun m =>
  {| monomers := monomers m; parameters := parameters m;
     rules := rules m; initial_conditions := initial_conditions m ++ [i] |}.

(** [Monomer(name, sites, site_states)] *)
Definition decl_Monomer (name : string) (sites : list string)
    (states : list (string * list string)) : decl :=
  add_monomer {| m_name := name; m_sites := sites; m_site_states := states |}.

(** [Parameter(name, value)] *)
Definition decl_Parameter (name : string) (value : Q) : decl :=
  add_parameter (mkParam (Named name) value).

(** [Initial(pattern, value)] *)
Definition decl_Initial (pat : ComplexPattern) (value   : Param) : decl :=
  add_initial {| i_pattern := pat; i_value := value |}.

(** [Rule(name, lhs >> rhs, Parameter(kf, v))]: the parameter written in
    the argument list is declared first, then the rule. *)
Definition decl_Rule (name : string) (lhs rhs : ReactionPattern)
    (kf : string * Q) : decl :=
  let pf := mkParam (Named kf.1) kf.2 in
  block [ add_parameter pf;
          add_rule {| r_name := Named name; r_reactants := lhs;
                      r_products := rhs; r_reversible := false;
                      r_rate_forward := pf; r_rate_reverse := None |} ].

(** [Rule(name, lhs <> rhs, Parameter(kf, v), Parameter(kr, w))] *)
Definition decl_Rule_rev (name : string) (lhs rhs : ReactionPattern)
    (kf kr : string * Q) : decl :=
  let pf := mkParam (Named kf.1) kf.2 in
  let pr := mkParam (Named kr.1) kr.2 in
  block [ add_parameter pf; add_parameter pr;
          add_rule {| r_name := Named name; r_reactants := lhs;
                      r_products := rhs; r_reversible := true;
                      r_rate_forward := pf; r_rate_reverse := Some pr |} ].

(** [mp(site=cond)]: a copy of the pattern with that site condition set. *)
Fixpoint set_cond (site : string) (c : site_cond)
    (sites : list (string * site_cond)) : list (string * site_cond) :=
  match sites with
  | [] => [(site, c)]
  | (s, c') :: rest =>
      if String.eqb s site then (s, c) :: rest
      else (s, c') :: set_cond site c rest
  end.

Definition with_site (mp : MonomerPattern) (site : string) (c : site_cond)
  : MonomerPattern :=
  MP (mp_monomer mp) (set_cond site c (mp_sites mp)).

(** [pysb.macros.bind(s1, site1, s2, site2, [kf, kr])]: the reversible rule
    [s1(site1=None) + s2(site2=None) <> s1(site1=1) % s2(site2=1)], with
    two rate parameters of generated names. *)
Definition bind (s1 : MonomerPattern) (site1 : string)
    (s2 : MonomerPattern) (site2 : string) (klist : Q * Q) : decl :=
  let lhs := [[with_site s1 site1 SNone]; [with_site s2 site2 SNone]] in
  let rhs := [[with_site s1 site1 (SBond 1); with_site s2 site2 (SBond 1)]] in
  let pf := mkParam (Generated "bind" lhs "kf") klist.1 in
  let pr := mkParam (Generated "bind" lhs "kr") klist.2 in
  block [ add_parameter pf; add_parameter pr;
          add_rule {| r_name := Generated "bind" lhs "";
                      r_reactants := lhs; r_products := rhs;
                      r_reversible := true;
                      r_rate_forward := pf; r_rate_reverse := Some pr |} ].

(** [pysb.macros.bind_table(table, row_site, col_site)]: [cols] is the
    header row, each entry of [rows] a row species with its cells; a cell
    [(kf, kr)] binds the row species to the column species, a cell [None]
    declares nothing. *)
Definition bind_table (cols : list MonomerPattern)
    (rows : list (MonomerPattern * list (option (Q * Q))))
    (row_site col_site : string) : decl :=
  for_each rows (fun row =>
    for_each (zip cols row.2) (fun cell =>
      match cell.2 with
      | Some klist => bind row.1 row_site cell.1 col_site klist
      | None => block []
      end)).

(** [pysb.macros.degrade(species, kdeg)] with [kdeg] a declared parameter:
    the rule [species >> None]. *)
Definition degrade (species : ComplexPattern) (kdeg : string * Q) : decl :=
  let pf := mkParam (Named kdeg.1) kdeg.2 in
  block [ add_parameter pf;
          add_rule {| r_name := Generated "degrade" [species] "";
                      r_reactants := [species]; r_products := [];
                      r_reversible := false;
                      r_rate_forward := pf; r_rate_reverse := None |} ].

Definition same_parameter (p q   : Param) : bool :=
  bool_decide (p_name p = p_name q).

Definition rule_uses (r : Rule) (p   : Param) : bool :=
  same_parameter (r_rate_forward r) p
  || match r_rate_reverse r with
     | Some q => same_parameter q p
     | None => false
     end.

(** [model.parameters_rules()]: the parameters used as rule rates, in the
    order of [model.parameters]. *)
Definition parameters_rules (m : Model) : list Param :=
  filter (fun p => existsb (fun r => rule_uses r p) (rules m)) (parameters m).


End Pysb.

(* ===================================================================== *)
(** * chen_modules.py: the receptor layer *)
(* ===================================================================== *)

Module ChenModules.
Import Pysb.
Local Open Scope string_scope.

(** Default rates *)
Definition KF : Q := 1 # 1000000.
Definition KR : Q := 1 # 1000.
Definition KC : Q := 1.
Definition KDIMF : Q := 1 # 1000000.
Definition KDIMR : Q := 1 # 1000.
Definition KINTF : Q := 1 # 1000.
Definition KINTR : Q := 5 # 100000.
Definition KDEG : Q := 1 # 10.

(** Shorthands for the patterns [EGF], [erbb(...)], ... *)
Definition EGF : list (string * site_cond) -> MonomerPattern := MP "EGF".
Definition HRG : list (string * site_cond) -> MonomerPattern := MP "HRG".
Definition erbb : list (string * site_cond) -> MonomerPattern := MP "erbb".
Definition DEP : list (string * site_cond) -> MonomerPattern := MP "DEP".
Definition ATP : list (string * site_cond) -> MonomerPattern := MP "ATP".
Definition ADP : list (string * site_cond) -> MonomerPattern := MP "ADP".

Definition rec_monomers : decl :=
  block [
    decl_Monomer "EGF" ["b"] [];
    decl_Monomer "HRG" ["b"] [];
    decl_Monomer "erbb" ["bl"; "bd"; "b"; "ty"; "st"; "loc"]
      [("ty", ["1"; "2"; "3"; "4"]); ("st", ["U"; "P"]); ("loc", ["C"; "E"])];
    decl_Monomer "DEP" ["b"] [];
    decl_Monomer "ATP" ["b"] [];
    decl_Monomer "ADP" [] []
  ].

Definition rec_initial : decl :=
  let EGF_0 := mkParam (Named "EGF_0") 1000 in
  let HRG_0 := mkParam (Named "HRG_0") 1000 in
  let erbb1_0 := mkParam (Named "erbb1_0") 1000 in
  let erbb2_0 := mkParam (Named "erbb2_0") 1000 in
  let erbb3_0 := mkParam (Named "erbb3_0") 1000 in
  let erbb4_0 := mkParam (Named "erbb4_0") 1000 in
  let DEP_0 := mkParam (Named "DEP_0") 1000 in
  let ATP_0 := mkParam (Named "ATP_0") 1000 in
  let free_erbb t :=
    [erbb [("bl", SNone); ("bd", SNone); ("b", SNone);
           ("ty", SState t); ("st", SState "U"); ("loc", SState "C")]] in
  block [
    add_parameter EGF_0; add_parameter HRG_0;
    add_parameter erbb1_0; add_parameter erbb2_0;
    add_parameter erbb3_0; add_parameter erbb4_0;
    add_parameter DEP_0; add_parameter ATP_0;
    decl_Initial [EGF [("b", SNone)]] EGF_0;
    decl_Initial [HRG [("b", SNone)]] HRG_0;
    decl_Initial (free_erbb "1") erbb1_0;
    decl_Initial (free_erbb "2") erbb2_0;
    decl_Initial (free_erbb "3") erbb3_0;
    decl_Initial (free_erbb "4") erbb4_0;
    decl_Initial [DEP [("b", SNone)]] DEP_0;
    decl_Initial [ATP [("b", SNone)]] ATP_0
  ].

(** The receptor [erbb(ty=t, b=None, st='U', loc='C')] of the binding
    tables. *)
Definition free_UC (t : string) : MonomerPattern :=
  erbb [("ty", SState t); ("b", SNone); ("st", SState "U"); ("loc", SState "C")].

(** The receptor [erbb(ty=t, bd=ANY, st='U', loc='C')] of the ATP table. *)
Definition dimer_UC (t : string) : MonomerPattern :=
  erbb [("ty", SState t); ("bd", SAny); ("st", SState "U"); ("loc", SState "C")].

(** The body of the cross-phosphorylation loop. *)
Definition cross_phospho (i j : string) : decl :=
  decl_Rule ("cross_phospho_" +:+ i +:+ "_" +:+ j)
    [[ATP [("b", SBond 1)];
      erbb [("ty", SState i); ("b", SBond 1); ("bd", SBond 2); ("bl", SAny)];
      erbb [("ty", SState j); ("bd", SBond 2); ("st", SState "U")]]]
    [[ADP []];
     [erbb [("ty", SState i); ("b", SNone); ("bd", SBond 2); ("bl", SAny)];
      erbb [("ty", SState j); ("bd", SBond 2); ("st", SState "P")]]]
    ("kcp" +:+ i +:+ j, KC).

(** The body of the dephosphorylation loop; [j] is the variable the
    previous loop left behind. *)
Definition dephospho (i j : string) : decl :=
  block [
    decl_Rule_rev ("dephospho_" +:+ i +:+ "_" +:+ j)
      [[erbb [("st", SState "P"); ("b", SNone); ("ty", SState i)]];
       [DEP [("b", SNone)]]]
      [[erbb [("st", SState "P"); ("b", SBond 1); ("ty", SState i)];
        DEP [("b", SBond 1)]]]
      ("kfdephos" +:+ i +:+ j, KF) ("krdephos" +:+ i +:+ j, KR);
    decl_Rule ("dephosphoC_" +:+ i +:+ "_" +:+ j)
      [[erbb [("st", SState "P"); ("b", SBond 1); ("ty", SState i)];
        DEP [("b", SBond 1)]]]
      [[erbb [("st", SState "U"); ("b", SNone); ("ty", SState i)]];
       [DEP [("b", SNone)]]]
      ("kcdephos" +:+ i +:+ j, KC)
  ].

Definition rec_events : decl :=
  block [
    (* binding to receptors *)
    bind_table [EGF []; HRG []]
      [ (free_UC "1", [Some (1%Q, 1%Q); None]);
        (free_UC "3", [None; Some (1%Q, 1%Q)]);
        (free_UC "4", [None; Some (1%Q, 1%Q)]) ]
      "bl" "b";
    (* erbb dimerization *)
    bind_table [free_UC "1"; free_UC "2"; free_UC "3"; free_UC "4"]
      [ (free_UC "1", [Some (KDIMF, KDIMR); None; None; None]);
        (free_UC "2", [Some (KDIMF, KDIMR); Some (KDIMF, KDIMR); None; None]);
        (free_UC "3", [Some (KDIMF, KDIMR); Some (KDIMF, KDIMR); None; None]);
        (free_UC "4", [Some (KDIMF, KDIMR); Some (KDIMF, KDIMR); None; None]) ]
      "bd" "bd";
    (* ATP binding: ATP only binds to dimers *)
    bind_table [ATP []]
      [ (dimer_UC "1", [Some (KF, KR)]);
        (dimer_UC "2", [Some (KF, KR)]);
        (dimer_UC "4", [Some (KF, KR)]) ]
      "b" "b";
    (* cross-phosphorylation *)
    for_each ["1"; "2"; "4"] (fun i =>
      for_each ["1"; "2"; "3"; "4"] (fun j => cross_phospho i j));
    (* receptor dephosphorylation *)
    for_each ["1"; "2"; "3"; "4"] (fun i => dephospho i "4");
    (* receptor internalization *)
    decl_Rule_rev "rec_intern"
      [[erbb [("bd", SBond 1); ("loc", SState "C")];
        erbb [("bd", SBond 1); ("loc", SState "C")]]]
      [[erbb [("bd", SBond 1); ("loc", SState "E")];
        erbb [("bd", SBond 1); ("loc", SState "E")]]]
      ("kintf", KINTF) ("kintr", KINTR);
    (* receptor degradation *)
    degrade [erbb [("bd", SBond 1); ("loc", SState "E")];
             erbb [("bd", SBond 1); ("loc", SState "E")]]
      ("kdeg", KDEG)
  ].

(** The receptor layer: monomers, initial conditions, then events. *)
Definition receptor_model : Model :=
  block [rec_monomers; rec_initial; rec_events] empty_model.

End ChenModules.


(* ===================================================================== *)
(** * One receptor's view of the rules *)
(* ===================================================================== *)

(** The rules are read from the point of view of a single [erbb] molecule:
    the molecule can take part in a rule wherever it matches one of the
    rule's [erbb] reactant patterns, and the rule then sets the sites the
    corresponding product pattern mentions, or removes the molecule when
    the product side has no counterpart.  The partners of the molecule are
    left unconstrained, so every history of a receptor in the generated
    network is a run of this view.  A rule with product [None] removes the
    whole complex it matches; [Spec.receptors_pair_only] checks that a
    complex never holds a receptor besides the two of a dimer. *)

Module ReceptorView.
Import Pysb.
Local Open Scope string_scope.

Inductive erbb_ty : Type := Ty1 | Ty2 | Ty3 | Ty4.
Inductive erbb_st : Type := StU | StP.
Inductive erbb_loc : Type := LocC | LocE.

(** The six sites of [Monomer('erbb', ['bl','bd','b','ty','st','loc'])];
    a binding site is bound ([true]) or free. *)
Record receptor : Type := Receptor {
  bl : bool;
  bd : bool;
  b : bool;
  ty : erbb_ty;
  st : erbb_st;
  loc : erbb_loc
}.

#[global] Instance erbb_ty_eq_dec : EqDecision erbb_ty.
Proof. solve_decision. Defined.
#[global] Instance erbb_st_eq_dec : EqDecision erbb_st.
Proof. solve_decision. Defined.
#[global] Instance erbb_loc_eq_dec : EqDecision erbb_loc.
Proof. solve_decision. Defined.
#[global] Instance receptor_eq_dec : EqDecision receptor.
Proof. solve_decision. Defined.

Inductive site_val : Type :=
  | Free
  | Bound
  | St (s : string).

Definition bond_val (x : bool) : site_val := if x then Bound else Free.

Definition ty_name (t : erbb_ty) : string :=
  match t with Ty1 => "1" | Ty2 => "2" | Ty3 => "3" | Ty4 => "4" end.
Definition st_name (s : erbb_st) : string :=
  match s with StU => "U" | StP => "P" end.
Definition loc_name (l : erbb_loc) : string :=
  match l with LocC => "C" | LocE => "E" end.

Definition parse_ty (s : string) : option erbb_ty :=
  if String.eqb s "1" then Some Ty1 else if String.eqb s "2" then Some Ty2
  else if String.eqb s "3" then Some Ty3 else if String.eqb s "4" then Some Ty4
  else None.
Definition parse_st (s : string) : option erbb_st :=
  if String.eqb s "U" then Some StU else if String.eqb s "P" then Some StP
  else None.
Definition parse_loc (s : string) : option erbb_loc :=
  if String.eqb s "C" then Some LocC else if String.eqb s "E" then Some LocE
  else None.

Definition get_site (r : receptor) (site : string) : option site_val :=
  if String.eqb site "bl" then Some (bond_val (bl r))
  else if String.eqb site "bd" then Some (bond_val (bd r))
  else if String.eqb site "b" then Some (bond_val (b r))
  else if String.eqb site "ty" then Some (St (ty_name (ty r)))
  else if String.eqb site "st" then Some (St (st_name (st r)))
  else if String.eqb site "loc" then Some (St (loc_name (loc r)))
  else None.

Definition bond_of (v : site_val) : option bool :=
  match v with Free => Some false | Bound => Some true | St _ => None end.
Definition state_of (v : site_val) : option string :=
  match v with St s => Some s | _ => None end.

Definition set_site (r : receptor) (site : string) (v : site_val)
  : option receptor :=
  if String.eqb site "bl" then
    x ← bond_of v; Some (Receptor x (bd r) (b r) (ty r) (st r) (loc r))
  else if String.eqb site "bd" then
    x ← bond_of v; Some (Receptor (bl r) x (b r) (ty r) (st r) (loc r))
  else if String.eqb site "b" then
    x ← bond_of v; Some (Receptor (bl r) (bd r) x (ty r) (st r) (loc r))
  else if String.eqb site "ty" then
    x ← state_of v ≫= parse_ty;
    Some (Receptor (bl r) (bd r) (b r) x (st r) (loc r))
  else if String.eqb site "st" then
    x ← state_of v ≫= parse_st;
    Some (Receptor (bl r) (bd r) (b r) (ty r) x (loc r))
  else if String.eqb site "loc" then
    x ← state_of v ≫= parse_loc;
    Some (Receptor (bl r) (bd r) (b r) (ty r) (st r) x)
  else None.

(** Does a site value satisfy a pattern's condition? *)
Definition cond_holds (c : site_cond) (v : site_val) : bool :=
  match c, v with
  | SNone, Free => true
  | SBond _, Bound => true
  | SAny, Bound => true
  | SState s, St s' => String.eqb s s'
  | _, _ => false
  end.

(** The site value a product pattern's condition establishes. *)
Definition val_of_cond (c : site_cond) : site_val :=
  match c with
  | SNone => Free
  | SBond _ | SAny => Bound
  | SState s => St s
  end.

Definition matches (r : receptor) (mp : MonomerPattern) : bool :=
  String.eqb (mp_monomer mp) "erbb"
  && forallb (fun sc => match get_site r sc.1 with
                        | Some v => cond_holds sc.2 v
                        | None => false
                        end) (mp_sites mp).

Definition rewrite_to (r : receptor) (mp : MonomerPattern) : option receptor :=
  foldl (fun acc sc => r' ← acc; set_site r' sc.1 (val_of_cond sc.2))
        (Some r) (mp_sites mp).

(** The [erbb] patterns of one side of a rule, in the order written. *)
Definition erbb_patterns (rp : ReactionPattern) : list MonomerPattern :=
  filter (fun mp => String.eqb (mp_monomer mp) "erbb") (concat rp).

(** Reactant patterns paired with their product counterparts, by position;
    a reactant without a counterpart is consumed. *)
Fixpoint align (ls rs : list MonomerPattern)
  : list (MonomerPattern * option MonomerPattern) :=
  match ls, rs with
  | [], _ => []
  | l :: ls', [] => (l, None) :: align ls' []
  | l :: ls', r :: rs' => (l, Some r) :: align ls' rs'
  end.

Inductive dir : Type := Fwd | Rev.

#[global] Instance dir_eq_dec : EqDecision dir.
Proof. solve_decision. Defined.

Definition directions (ru : Rule) : list dir :=
  if r_reversible ru then [Fwd; Rev] else [Fwd].

Definition sides (ru : Rule) (d : dir) : ReactionPattern * ReactionPattern :=
  match d with
  | Fwd => (r_reactants ru, r_products ru)
  | Rev => (r_products ru, r_reactants ru)
  end.

Inductive outcome : Type :=
  | Alive (r : receptor)
  | Degraded.

#[global] Instance outcome_eq_dec : EqDecision outcome.
Proof. solve_decision. Defined.

(** A step is labelled with the rule applied and its direction. *)
Definition label : Type := comp_name * dir.

Definition role_outcome (r : receptor)
    (role : MonomerPattern * option MonomerPattern) : list outcome :=
  if matches r role.1 then
    match role.2 with
    | None => [Degraded]
    | Some p => match rewrite_to r p with
                | Some r' => [Alive r']
                | None => []
                end
    end
  else [].

Definition rule_outcomes (ru : Rule) (d : dir) (r : receptor) : list outcome :=
  let (lhs, rhs) := sides ru d in
  flat_map (role_outcome r) (align (erbb_patterns lhs) (erbb_patterns rhs)).

(** Everything that can happen to a receptor in one rule application. *)
Definition successors (rs : list Rule) (r : receptor) : list (label * outcome) :=
  flat_map (fun ru =>
    flat_map (fun d => map (fun o => ((r_name ru, d), o)) (rule_outcomes ru d r))
             (directions ru)) rs.

Definition receptor_step (rs : list Rule) (r : receptor) (l : label) (o : outcome) : Prop :=
  In (l, o) (successors rs r).

(** A receptor's history: the labels of the steps it takes, and where it
    ends up. *)
Inductive receptor_run (rs : list Rule) : receptor -> list label -> outcome -> Prop :=
  | run_stop r : receptor_run rs r [] (Alive r)
  | run_step r l r' ls o :
      receptor_step rs r l (Alive r') -> receptor_run rs r' ls o ->
      receptor_run rs r (l :: ls) o
  | run_degrade r l :
      receptor_step rs r l Degraded -> receptor_run rs r [l] Degraded.

(** The receptors the initial conditions of a model put in the cell: a
    receptor is initial when it matches the [erbb] pattern of one of the
    [Initial] declarations. *)
Definition initial_receptor (m : Model) (r : receptor) : bool :=
  existsb (fun i => existsb (matches r) (i_pattern i)) (initial_conditions m).

Definition all_receptors : list receptor :=
  x1 ← [false; true]; x2 ← [false; true]; x3 ← [false; true];
  t ← [Ty1; Ty2; Ty3; Ty4]; s ← [StU; StP]; l ← [LocC; LocE];
  [Receptor x1 x2 x3 t s l].

(** Decidable forms of the one-step properties, checked over all the
    receptor states. *)
Definition is_degraded (o : outcome) : bool :=
  match o with Degraded => true | Alive _ => false end.

Definition at_membrane (r : receptor) : bool := bool_decide (loc r = LocC).

Definition never_degraded_at_membrane (rs : list Rule) (r : receptor) : bool :=
  if at_membrane r
  then forallb (fun lo => negb (is_degraded lo.2)) (successors rs r)
  else true.

Definition degraded_only_by (rs : list Rule) (l : label) (r : receptor) : bool :=
  forallb (fun lo => if is_degraded lo.2
                     then bool_decide (lo.1 = l)
                          && bool_decide (loc r = LocE) && bd r
                     else true) (successors rs r).

Definition internalized_only_by (rs : list Rule) (l : label) (r : receptor) : bool :=
  forallb (fun lo => match lo.2 with
                     | Alive r' =>
                         if at_membrane r && bool_decide (loc r' = LocE)
                         then bool_decide (lo.1 = l) && bd r && bd r'
                         else true
                     | Degraded => true
                     end) (successors rs r).

End ReceptorView.


(* ===================================================================== *)
(** * calibration_A431_highEGF.py *)
(* ===================================================================== *)

Module Calibration.
Import Float Numpy Pysb.
Local Open Scope string_scope.

(** ** Observable effects *)

(** An argument of a [%]-formatted [print]. *)
Inductive pyval : Type :=
  | VInt (z : Z)
  | VFloat (x : float64)
  | VStr (s : string)
  | VName (n : comp_name).

(** What [numpy.save] is given. *)
Inductive npy : Type :=
  | NpyArray (m : matrix)
  | NpyPairs (l : list (Param * float64)).

(** The calls that reach outside the script, in the order they happen. *)
Inductive event : Type :=
  | EvSimulate (position : option vector) (observables : bool)
      (* mcmc.simulate(position, observables) *)
  | EvOdesolve (tspan : vector)
      (* pysb.integrate.odesolve(model, tspan) *)
  | EvPrint (fmt : string) (args : list pyval)
      (* print(fmt % args) *)
  | EvPlotStyle (style : string)
      (* plt.plot(nan, nan, style) *)
  | EvLegend (labels : list string) (loc : string)
  | EvPlot (x : vector) (y : matrix)
      (* plt.plot(x, y): one line per column of y *)
  | EvSetLine (plot column : nat) (attr value : string)
      (* line.set_color(c), line.set_linestyle(s), line.set_marker(m) *)
  | EvShow
  | EvSave (file : string) (content : npy).
      (* numpy.save(file, content) *)

(** A computation emits events and returns or raises; the events emitted
    before an exception stay. *)
Definition io (A : Type) : Type := list event * result A.

Definition ioret {A} (a : A) : io A := ([], Ok a).

Definition iobind {A B} (m : io A) (f : A -> io B) : io B :=
  match m with
  | (tr, Ok a) => let (tr', r) := f a in ((tr ++ tr')%list, r)
  | (tr, Raise e) => (tr, Raise e)
  end.

Definition emit (e : event) : io unit := ([e], Ok tt).
Definition lift {A} (r : result A) : io A := ([], r).

Declare Scope io_scope.
Delimit Scope io_scope with io.
Notation "x <- m ;; k" := (iobind m (fun x => k))
  (at level 100, m at next level, right associativity) : io_scope.
Notation "m ;;; k" := (iobind m (fun _ => k))
  (at level 100, right associativity) : io_scope.

(** [for x in xs: body] *)
Fixpoint io_for {A} (xs : list A) (body : A -> io unit) : io unit :=
  match xs with
  | [] => ioret tt
  | x :: xs' => iobind (body x) (fun _ => io_for xs' body)
  end.

Definition print (fmt : string) (args : list pyval) : io unit :=
  emit (EvPrint fmt args).

(** The files [numpy.save] has written, read off a trace; a later save to
    the same name replaces the earlier one. *)
Definition files_of (tr : list event) : gmap string npy :=
  foldl (fun fs e => match e with
                     | EvSave f c => <[f := c]> fs
                     | _ => fs
                     end) ∅ tr.

(** ** The sampler object *)

(** The attributes and methods of [bayessb.MCMC] the script touches.
    [simulate_fn] is the ODE solver behind [mcmc.simulate]; it may fail, and
    so may [get_mixed_accepts], which is handed the [burn] argument as the
    script computes it. *)
Record MCMC : Type := {
  simulate_fn : option vector -> bool -> result recarray;
  iter : Z;
  sig_value : float64;
  T : float64;
  acceptance : Z;
  accept_likelihood : float64;
  accept_prior : float64;
  accept_posterior : float64;
  cur_params : vector;
  estimate_idx : list nat;
  get_mixed_accepts : pyval -> result matrix
}.

(** [mcmc.simulate(position, observables=...)] *)
Definition simulate (mcmc : MCMC) (position : option vector) (observables : bool)
  : io recarray :=
  ([EvSimulate position observables], simulate_fn mcmc position observables).

(** A value assigned to an attribute of the options object. *)
Inductive optval : Type :=
  | OInt (z : Z)
  | OFloat (x : float64)
  | OBool (b : bool)
  | OStr (s : string)
  | OArray (v : vector)
  | OModel (m : Model)
  | OParams (ps : list Param)
  | OLikelihood (f : MCMC -> vector -> io float64)
  | OPrior (f : MCMC -> vector -> result float64)
  | OStep (f : MCMC -> io unit).

(** [bayessb.MCMCOpts()]: the attributes the script has assigned so far;
    an attribute that is not in the map still holds the library's default. *)
Abbreviation MCMCOpts := (gmap string optval).

(** [opts.name] where an integer is needed. *)
Definition attr_int (opts : MCMCOpts) (name : string) : result Z :=
  match opts !! name with
  | Some (OInt z) => Ok z
  | _ => Raise TypeError
  end.

Definition attr_params (opts : MCMCOpts) (name : string) : result (list Param) :=
  match opts !! name with
  | Some (OParams ps) => Ok ps
  | _ => Raise TypeError
  end.

(** ** Functions of the script *)

(** Rescale a matrix of model trajectories to 0-1 *)
Definition normalize (trajectories : matrix) : result matrix :=
  (ymin <- amin0 trajectories;;
   ymax <- amax0 trajectories;;
   num <- binop fsub trajectories (atleast_2d ymin);;
   den <- vec_binop fsub ymax ymin;;
   binop fdiv num (atleast_2d den))%result.

(** Convert a record-type array and list of names into a float array *)
Definition extract_records (rec : recarray) (names : list string)
  : result matrix :=
  (cols <- map_result (field rec) names;;
   stacked <- vstack cols;;
   Ok (transpose stacked))%result.

(** An integer converts to a float when it rounds to a finite one; the
    largest float is [2^1024 - 2^971], and rounding reaches beyond it from
    [2^1024 - 2^970] on. *)
Definition float_limit : Z := 2 ^ 1024 - 2 ^ 970.

(** [float(z)], and the conversion of the integer operand of a float
    operation: [OverflowError] outside the range of a float. *)
Definition py_float (z : Z) : result float64 :=
  if (Z.abs z <? float_limit)%Z then Ok (of_Z z) else Raise OverflowError.

(** [a / n] for a float [a] and an integer [n]: [n] is converted to a
    float, then a zero divisor raises. *)
Definition py_truediv (a : float64) (n : Z) : result float64 :=
  (d <- py_float n;;
   if (n =? 0)%Z then Raise ZeroDivisionError else Ok (fdiv a d))%result.

(** [a / b] for two integers: the quotient as a float, [OverflowError]
    when it is beyond the range of a float. *)
Definition int_truediv (a b : Z) : result float64 :=
  if (b =? 0)%Z then Raise ZeroDivisionError
  else if (float_limit * Z.abs b <=? Z.abs a)%Z then Raise OverflowError
  else Ok (Fin (Qred (inject_Z a / inject_Z b))).

(** [plt.plot(x, y)] with a two-dimensional [y]: one line per column of
    [y]; [ValueError] unless [y] has one row per entry of [x]. *)
Definition plt_plot (x : vector) (y : matrix) : io unit :=
  if Nat.eqb (length x) (nrows y) then emit (EvPlot x y)
  else lift (Raise ValueError).

(** Print out some statistics every 20 steps *)
Definition step (mcmc : MCMC) : io unit :=
  if (iter mcmc mod 20 =? 0)%Z then
    (accepted <- lift (py_float (acceptance mcmc));;
     acc <- lift (py_truediv accepted (iter mcmc + 1));;
     print "iter=%-5d  sigma=%-.3f  T=%-.3f  acc=%-.3f, lkl=%g  prior=%g  post=%g"
       [VInt (iter mcmc); VFloat (sig_value mcmc); VFloat (T mcmc); VFloat acc;
        VFloat (accept_likelihood mcmc); VFloat (accept_prior mcmc);
        VFloat (accept_posterior mcmc)])%io
  else ioret tt.

Definition tspan : vector :=
  map of_Z [0; 150; 300; 450; 600; 900; 1800; 2700; 3600; 7200]%Z.

Definition obs_names : list string :=
  ["obsAKTPP"; "obsErbB1_ErbB_P_CE"; "obsERKPP"].

Definition scenario : Z := 1.

Definition prior_var : float64 := Fin 6.

Definition colors : list string := ["r"; "g"; "b"].
Definition patterns : list string := ["k--"; "k"; "k:x"].

Section Script.

(** [numpy.load] of the two data files: the experimental data, already
    scaled to 0-1, and its standard deviations. *)
Variable ydata_norm : matrix.
Variable exp_var : matrix.
(** [numpy.log10] *)
Variable log10 : float64 -> float64.
(** [from ..erbb_exec import model] *)
Variable model : Model.
(** [mcmc = bayessb.MCMC(opts); mcmc.run()]: the sampler after its run. *)
Variable bayessb_run : MCMCOpts -> io MCMC.
(** [pysb.integrate.odesolve] *)
Variable odesolve : Model -> vector -> result recarray.

(** Distance between model trajectories and experimental data *)
Definition likelihood (mcmc : MCMC) (position : vector) : io float64 :=
  (ysim <- simulate mcmc (Some position) true;;
   ysim_array <- lift (extract_records ysim obs_names);;
   ysim_norm <- lift (normalize ysim_array);;
   diff <- lift (binop fsub ydata_norm ysim_norm);;
   terms <- lift (binop fdiv (map_matrix fsquare diff)
                    (map_matrix (fmul (Fin 2)) (map_matrix fsquare exp_var)));;
   ioret (msum terms))%io.

(** [[numpy.log10(p.value) for p in opts.estimate_params]] *)
Definition prior_mean (estimate_params : list Param) : vector :=
  map (fun p => log10 (Fin (p_value p))) estimate_params.

(** Distance to original parameter values; [mean] is the global
    [prior_mean]. *)
Definition prior (mean : vector) (mcmc : MCMC) (position : vector)
  : result float64 :=
  (diff <- vec_binop fsub position mean;;
   Ok (vsum (map (fun x => fdiv x (fmul (Fin 2) prior_var))
               (map fsquare diff))))%result.

(** A few estimation scenarios *)
Definition choose_scenario (scenario : Z) (opts : MCMCOpts) : result MCMCOpts :=
  if (scenario =? 1)%Z then
    (* estimate rates only (not initial conditions) *)
    Ok (<["estimate_params" := OParams (parameters_rules model)]> opts)
  else if (scenario =? 2)%Z then
    (* use hessian *)
    let opts := <["estimate_params" := OParams (parameters_rules model)]> opts in
    let opts := <["use_hessian" := OBool true]> opts in
    (nsteps <- attr_int opts "nsteps";;
     period <- int_truediv nsteps 6;;
     Ok (<["hessian_period" := OFloat period]> opts))%result
  else Raise (RuntimeError "unknown scenario number").

(** The options as they are when [bayessb.MCMC(opts)] is called. *)
Definition script_opts (scenario : Z) : result MCMCOpts :=
  let opts : MCMCOpts := ∅ in
  let opts := <["model" := OModel model]> opts in
  let opts := <["tspan" := OArray tspan]> opts in
  let opts := <["integrator" := OStr "vode"]> opts in
  let opts := <["nsteps" := OInt 50000]> opts in
  (opts <- choose_scenario scenario opts;;
   estimate_params <- attr_params opts "estimate_params";;
   let mean := prior_mean estimate_params in
   let opts := <["likelihood_fn" := OLikelihood likelihood]> opts in
   let opts := <["prior_fn" := OPrior (prior mean)]> opts in
   let opts := <["step_fn" := OStep step]> opts in
   let opts := <["seed" := OInt 1]> opts in
   let opts := <["atol" := OFloat (Fin (1 # 1000000))]> opts in
   let opts := <["rtol" := OFloat (Fin (1 # 1000))]> opts in
   let opts := <["intsteps" := OInt 5000]> opts in
   let opts := <["with_jacobian" := OBool true]> opts in
   Ok opts)%result.

(** [mcmc.cur_params()[mcmc.estimate_idx]] *)
Definition fitted_values (mcmc : MCMC) : result vector :=
  take_indices (cur_params mcmc) (estimate_idx mcmc).

(** Print some information about the maximum-likelihood estimate
    parameter set. *)
Definition report (estimate_params : list Param) (mcmc : MCMC) : io unit :=
  (print "" [];;;
   print "%-10s %-12s %-12s %s"
     [VStr "parameter"; VStr "actual"; VStr "fitted"; VStr "log10(fit/actual)"];;;
   fitted <- lift (fitted_values mcmc);;
   io_for (zip estimate_params fitted) (fun pv =>
     let param := pv.1 in
     let new_value := pv.2 in
     let change := log10 (fdiv new_value (Fin (p_value param))) in
     print "%-10s %-12.2g %-12.2g %-+6.2f"
       [VName (p_name param); VFloat (Fin (p_value param));
        VFloat new_value; VFloat change]))%io.

(** Plot data and simulated trajectories before and after the fit.  The
    three calls of [plt.plot] on data are numbered 0 (initial), 1 (data)
    and 2 (final); a line is a plot number and a column. *)
Definition plot_fit (mcmc : MCMC) : io unit :=
  (io_for ((colors ++ patterns)%list) (fun style => emit (EvPlotStyle style));;;
   emit (EvLegend ["pAKT"; "pErbB1"; "pERK"; "initial"; "final"; "data"]
           "lower right");;;
   emit (EvOdesolve tspan);;;
   yinitial <- lift (odesolve model tspan);;
   yinitial_array <- lift (extract_records yinitial obs_names);;
   ysim <- simulate mcmc None true;;
   yfinal_array <- lift (extract_records ysim obs_names);;
   yinitial_norm <- lift (normalize yinitial_array);;
   plt_plot tspan yinitial_norm;;;
   plt_plot tspan ydata_norm;;;
   yfinal_norm <- lift (normalize yfinal_array);;
   plt_plot tspan yfinal_norm;;;
   let nlines := Nat.min (ncols yinitial_norm)
                   (Nat.min (ncols ydata_norm) (ncols yfinal_norm)) in
   io_for (zip (seq 0 nlines) colors) (fun kc =>
     emit (EvSetLine 0 kc.1 "color" kc.2);;;
     emit (EvSetLine 1 kc.1 "color" kc.2);;;
     emit (EvSetLine 2 kc.1 "color" kc.2);;;
     emit (EvSetLine 0 kc.1 "linestyle" "--");;;
     emit (EvSetLine 1 kc.1 "linestyle" ":");;;
     emit (EvSetLine 1 kc.1 "marker" "x"));;;
   emit EvShow)%io.

(** The two [numpy.save] calls that end the script; [opts.nsteps/10] is a
    float, the quotient of two integers. *)
Definition save_results (opts : MCMCOpts) (mcmc : MCMC) : io unit :=
  (nsteps <- lift (attr_int opts "nsteps");;
   burn <- lift (int_truediv nsteps 10);;
   samples <- lift (get_mixed_accepts mcmc (VFloat burn));;
   emit (EvSave "calibration_allpositions_A431_highEGF.npy" (NpyArray samples));;;
   estimate_params <- lift (attr_params opts "estimate_params");;
   fitted <- lift (fitted_values mcmc);;
   emit (EvSave "calibration_fittedparams_A431_highEGF.npy"
           (NpyPairs (zip estimate_params fitted))))%io.

(** The script from the options to the end. *)
Definition main : io unit :=
  (opts <- lift (script_opts scenario);;
   mcmc <- bayessb_run opts;;
   estimate_params <- lift (attr_params opts "estimate_params");;
   report estimate_params mcmc;;;
   plot_fit mcmc;;;
   save_results opts mcmc)%io.

End Script.

End Calibration.

(* ===================================================================== *)
(** * The properties in index form *)
(* ===================================================================== *)

(** The quantities of the statements below, written entry by entry and
    independently of the array operations of the script. *)

Module Spec.
Import Float Numpy Calibration.

(** [m[t][k]] and [v[i]]; the statements only read inside the arrays. *)
Definition get (m : matrix) (t k : nat) : float64 := default NaN (entry m t k).
Definition at_index (v : vector) (i : nat) : float64 := default NaN (v !! i).

(** The [T] by [c] array with entry [g t k]. *)
Definition tabulate (T c : nat) (g : nat -> nat -> float64) : matrix :=
  map (fun t => map (g t) (seq 0 c)) (seq 0 T).

(** The sum of [term t k] over [t < T] and [k < c], row by row. *)
Definition sum_over (T c : nat) (term : nat -> nat -> float64) : float64 :=
  vsum (t ← seq 0 T; k ← seq 0 c; [term t k]).

(** The sum of [term i] over [i < n]. *)
Definition sum_upto (n : nat) (term : nat -> float64) : float64 :=
  vsum (map term (seq 0 n)).

(** Smallest and largest value of a trajectory. *)
Definition minimum (v : vector) : float64 :=
  match v with
  | [] => NaN
  | x :: xs => foldl fmin x xs
  end.

Definition maximum (v : vector) : float64 :=
  match v with
  | [] => NaN
  | x :: xs => foldl fmax x xs
  end.

(** A trajectory value rescaled to the range of its trajectory. *)
Definition rescale (col : vector) (x : float64) : float64 :=
  fdiv (fsub x (minimum col)) (fsub (maximum col) (minimum col)).

(** [(y - ysim)^2 / (2 * sd^2)] *)
Definition gaussian_term (y ysim sd : float64) : float64 :=
  fdiv (fsquare (fsub y ysim)) (fmul (Fin 2) (fsquare sd)).

(** [(x - mean)^2 / (2 * var)] *)
Definition prior_term (x mean var : float64) : float64 :=
  fdiv (fsquare (fsub x mean)) (fmul (Fin 2) var).

(** Column [k] of a matrix. *)
Definition column (m : matrix) (k : nat) : vector :=
  map (fun r => at_index r k) m.

Definition all_finite (m : matrix) : Prop :=
  Forall (Forall (fun x => is_finite x = true)) m.

(** [lo] and [hi] are the column minima and maxima the script computes,
    and every maximum is strictly greater than its minimum. *)
Definition strict_range (m : matrix) (lo hi : vector) : Prop :=
  amin0 m = Ok lo /\ amax0 m = Ok hi
  /\ Forall2 (fun a b => flt a b = true) lo hi.

(** [y] is a 0-1 rescaling of [x] in a column of minimum [a] and maximum
    [b]: it lies in [[0, 1]], is 0 when [x] is the minimum and 1 when [x]
    is the maximum. *)
Definition rescaled_entry (x a b y : float64) : Prop :=
  in_unit_interval y
  /\ (fle x a = true -> y = Fin 0)
  /\ (fle b x = true -> y = Fin 1).

(** [n] is a 0-1 rescaling of [m]: the same shape, and every entry a 0-1
    rescaling of the entry of [m] at its place. *)
Definition unit_rescaling (m n : matrix) (lo hi : vector) : Prop :=
  shape n = shape m
  /\ forall t k x a b,
       entry m t k = Some x -> lo !! k = Some a -> hi !! k = Some b ->
       exists y, entry n t k = Some y /\ rescaled_entry x a b y.

(** What the claim asks of [extract_records r names]: it returns an array
    whose entry at row [t], column [k] is [r[names[k]][t]]. *)
Definition extracts_columns (r : recarray) (names : list string) : Prop :=
  exists m, extract_records r names = Ok m
    /\ forall t k name col,
         names !! k = Some name -> field r name = Ok col ->
         entry m t k = col !! t.

(** What the claim asks of [normalize] on [m]. *)
Definition normalize_rescales (m : matrix) : Prop :=
  forall lo hi, strict_range m lo hi ->
    exists n, normalize m = Ok n /\ unit_rescaling m n lo hi.

Import Pysb ChenModules.
Local Open Scope string_scope.

(** The cross-phosphorylation rule of kinase receptor [i] and substrate
    receptor [j]: ATP bound to receptor [i], itself in a dimer with an
    unphosphorylated receptor [j], becomes ADP and leaves receptor [j]
    phosphorylated; the rate constant is 1. *)
Definition cross_phospho_rule (i j : string) : Rule :=
  {| r_name := Named ("cross_phospho_" +:+ i +:+ "_" +:+ j);
     r_reactants :=
       [[MP "ATP" [("b", SBond 1)];
         MP "erbb" [("ty", SState i); ("b", SBond 1); ("bd", SBond 2); ("bl", SAny)];
         MP "erbb" [("ty", SState j); ("bd", SBond 2); ("st", SState "U")]]];
     r_products :=
       [[MP "ADP" []];
        [MP "erbb" [("ty", SState i); ("b", SNone); ("bd", SBond 2); ("bl", SAny)];
         MP "erbb" [("ty", SState j); ("bd", SBond 2); ("st", SState "P")]]];
     r_reversible := false;
     r_rate_forward := mkParam (Named ("kcp" +:+ i +:+ j)) 1;
     r_rate_reverse := None |}.

Definition mentions (monomer : string) (rp : ReactionPattern) : bool :=
  existsb (fun mp => String.eqb (mp_monomer mp) monomer) (concat rp).

(** A rule that turns ATP into ADP. *)
Definition consumes_ATP (r : Rule) : bool :=
  mentions "ATP" (r_reactants r) && mentions "ADP" (r_products r).

(** The receptor types that a rule lets take up free ATP. *)
Definition ATP_binding_types (r : Rule) : list site_cond :=
  if existsb (fun cp => bool_decide (cp = [MP "ATP" [("b", SNone)]]))
       (r_reactants r)
  then omap (fun mp =>
               if String.eqb (mp_monomer mp) "erbb"
               then snd <$> List.find (fun sc => String.eqb sc.1 "ty") (mp_sites mp)
               else None) (concat (r_reactants r))
  else [].

(** A rule whose product side has fewer receptors than its reactant side. *)
Definition removes_receptor (r : Rule) : bool :=
  Nat.ltb (length (ReceptorView.erbb_patterns (r_products r)))
          (length (ReceptorView.erbb_patterns (r_reactants r))).

(** The rules of the receptor layer. *)
Definition rec_rules : list Rule := rules receptor_model.

(** The ends of the numbered bonds of a complex pattern: bond number,
    monomer and site. *)
Definition bond_ends (cp : ComplexPattern) : list (nat * (string * string)) :=
  mp ← cp; sc ← mp_sites mp;
  match sc.2 with
  | SBond n => [(n, (mp_monomer mp, sc.1))]
  | _ => []
  end.

Definition single_site (m : Model) (monomer : string) : bool :=
  existsb (fun mo => String.eqb (m_name mo) monomer
                     && Nat.eqb (length (m_sites mo)) 1) (monomers m).

(** A bond joins two receptors through their [bd] sites, or a receptor to a
    monomer that has a single site. *)
Definition bond_joins_dimer_or_ligand (m : Model)
    (e1 e2 : string * string) : bool :=
  match String.eqb e1.1 "erbb", String.eqb e2.1 "erbb" with
  | true, true => String.eqb e1.2 "bd" && String.eqb e2.2 "bd"
  | true, false => single_site m e2.1
  | false, true => single_site m e1.1
  | false, false => true
  end.

Fixpoint bonds_ok (m : Model) (ends : list (nat * (string * string))) : bool :=
  match ends with
  | [] => true
  | (n, e) :: rest =>
      forallb (fun ne => if Nat.eqb ne.1 n
                         then bond_joins_dimer_or_ligand m e ne.2 else true) rest
      && bonds_ok m rest
  end.

(** No rule of the model builds a complex with more than two receptors:
    whatever is bound to a receptor besides its dimer partner has no
    further site.  A rule that removes a complex therefore removes no
    receptor beyond those its pattern names. *)
Definition receptors_pair_only (m : Model) : bool :=
  forallb (fun ru => forallb (fun cp => bonds_ok m (bond_ends cp))
                       (r_reactants ru ++ r_products ru)%list) (rules m).

(** The labels of internalization and of degradation. *)
Definition internalization : ReceptorView.label :=
  (Named "rec_intern", ReceptorView.Fwd).

Definition degradation : ReceptorView.label :=
  (Generated "degrade"
     [[MP "erbb" [("bd", SBond 1); ("loc", SState "E")];
       MP "erbb" [("bd", SBond 1); ("loc", SState "E")]]] "",
   ReceptorView.Fwd).

Import Calibration.

(** Traces all of whose events satisfy a predicate. *)
Definition emits_only {A} (P : event -> Prop) (m : io A) : Prop := Forall P m.1.

(** The options under the default scenario, attribute by attribute. *)
Definition default_opts (ydata_norm exp_var : matrix)
    (log10 : float64 -> float64) (model : Model) : MCMCOpts :=
  <["with_jacobian" := OBool true]>
  (<["intsteps" := OInt 5000]>
  (<["rtol" := OFloat (Fin (1 # 1000))]>
  (<["atol" := OFloat (Fin (1 # 1000000))]>
  (<["seed" := OInt 1]>
  (<["step_fn" := OStep step]>
  (<["prior_fn" := OPrior (prior (prior_mean log10 (parameters_rules model)))]>
  (<["likelihood_fn" := OLikelihood (likelihood ydata_norm exp_var)]>
  (<["estimate_params" := OParams (parameters_rules model)]>
  (<["nsteps" := OInt 50000]>
  (<["integrator" := OStr "vode"]>
  (<["tspan" := OArray tspan]>
  (<["model" := OModel model]> ∅)))))))))))).

Definition is_save (e : event) : bool :=
  match e with EvSave _ _ => true | _ => false end.

(** The solver call of one likelihood evaluation. *)
Definition solver_call (position : vector) : event :=
  EvSimulate (Some position) true.

(** A sampler object and data: three observables over two time points. *)
Definition toy_trajectories : recarray :=
  [("obsAKTPP", [Fin 0; Fin 1]);
   ("obsErbB1_ErbB_P_CE", [Fin 2; Fin 4]);
   ("obsERKPP", [Fin 5; Fin 3]);
   ("unused", [Fin 7; Fin 7])].

Definition toy_data : matrix :=
  [[Fin 0; Fin (1 # 2); Fin 1]; [Fin 1; Fin 1; Fin 0]].

Definition toy_sd : matrix :=
  [[Fin 1; Fin (1 # 4); Fin 1]; [Fin (1 # 4); Fin 1; Fin (1 # 2)]].

Definition toy_mcmc : MCMC :=
  {| simulate_fn := fun _ _ => Ok toy_trajectories;
     iter := 40; sig_value := Fin 1; T := Fin 1; acceptance := 10;
     accept_likelihood := Fin 1; accept_prior := Fin 1;
     accept_posterior := Fin 2;
     cur_params := [Fin 1; Fin 2; Fin 3]; estimate_idx := [0; 2];
     get_mixed_accepts := fun burn =>
       match burn with
       | VFloat x => Ok [[x]]
       | VInt z => Ok [[of_Z z]]
       | _ => Raise TypeError
       end |}.


(** A sampler object and data on which the whole script runs: three
    observables over the ten time points of [tspan], as the plot needs. *)
Definition ten_point_trajectories : recarray :=
  [("obsAKTPP", map of_Z [0; 1; 2; 3; 4; 5; 6; 7; 8; 9]%Z);
   ("obsErbB1_ErbB_P_CE", map of_Z [0; 4; 8; 8; 6; 5; 4; 3; 2; 1]%Z);
   ("obsERKPP", map of_Z [0; 0; 1; 3; 5; 5; 4; 2; 1; 1]%Z)].

Definition ten_point_data : matrix :=
  replicate 10 [Fin 0; Fin (1 # 2); Fin 1].

Definition ten_point_sd : matrix :=
  replicate 10 [Fin 1; Fin (1 # 4); Fin (1 # 2)].

Definition ten_point_mcmc : MCMC :=
  {| simulate_fn := fun _ _ => Ok ten_point_trajectories;
     iter := 49999; sig_value := Fin 1; T := Fin 1; acceptance := 12000;
     accept_likelihood := Fin 1; accept_prior := Fin 1;
     accept_posterior := Fin 2;
     cur_params := [Fin 1; Fin 2; Fin 3]; estimate_idx := [0; 2];
     get_mixed_accepts := get_mixed_accepts toy_mcmc |}.

Definition ten_point_run (opts : MCMCOpts) : io MCMC := ([], Ok ten_point_mcmc).

Definition ten_point_odesolve (m : Model) (tspan : vector) : result recarray :=
  Ok ten_point_trajectories.

End Spec.

(* ===================================================================== *)
(** * chen_modules.py: the MAPK layer *)
(* ===================================================================== *)

Module ChenMapk.
Import Pysb ChenModules.
Local Open Scope string_scope.

Definition GAP : list (string * site_cond) -> MonomerPattern := MP "GAP".

(** A complex pattern of a rule expression, with the mark [MatchOnce] puts
    on it. *)
Record Marked : Type := {
  mk_pattern : ComplexPattern;
  mk_once : bool
}.

(** [MatchOnce(pattern)] *)
Definition MatchOnce (cp : ComplexPattern) : Marked :=
  {| mk_pattern := cp; mk_once := true |}.

Definition unmarked (cp : ComplexPattern) : Marked :=
  {| mk_pattern := cp; mk_once := false |}.

(** A reversible rule over marked patterns.  The mark tells the network
    generator to count the symmetric matches of a pattern once; it does not
    change which molecules a rule matches or what it does to them, and the
    model record keeps the patterns. *)
Definition decl_Rule_rev_marked (name : string) (lhs rhs : list Marked)
    (kf kr : string * Q) : decl :=
  decl_Rule_rev name (map mk_pattern lhs) (map mk_pattern rhs) kf kr.

Definition mapk_monomers : decl :=
  decl_Monomer "GAP" ["b"] [].

Definition mapk_initial : decl :=
  let GAP_0 := mkParam (Named "GAP_0") 1000 in
  block [
    add_parameter GAP_0;
    decl_Initial [GAP [("b", SNone)]] GAP_0
  ].

Definition mapk_events : decl :=
  (* GAP binds to phosphorylated dimers *)
  decl_Rule_rev_marked "GAP_dimerization"
    [ MatchOnce [erbb [("bd", SBond 1); ("b", SNone); ("st", SState "P")];
                 erbb [("bd", SBond 1); ("b", SNone); ("st", SState "P")]];
      unmarked [GAP [("b", SNone)]] ]
    [ MatchOnce [erbb [("bd", SBond 1); ("b", SBond 2); ("st", SState "P")];
                 erbb [("bd", SBond 1); ("b", SNone); ("st", SState "P")];
                 GAP [("b", SBond 2)]] ]
    ("kerbb_dim_GAPf", KF) ("kerbb_dim_GAPr", KR).

(** The receptor layer together with the MAPK layer: monomers, initial
    conditions, then events. *)
Definition receptor_mapk_model : Model :=
  block [rec_monomers; mapk_monomers; rec_initial; mapk_initial;
         rec_events; mapk_events] empty_model.

End ChenMapk.

(* ===================================================================== *)
(** * Further properties, in decidable form *)
(* ===================================================================== *)

Module Checks.
Import Float Numpy Pysb ChenModules ChenMapk ReceptorView Calibration Spec.
Local Open Scope string_scope.

(** Every step of every receptor state satisfies [Q]. *)
Definition steps_satisfy (rs : list Rule)
    (Q : receptor -> label -> outcome -> bool) : bool :=
  forallb (fun r => forallb (fun lo => Q r lo.1 lo.2) (successors rs r))
          all_receptors.

(** A step keeps a property of the receptor. *)
Definition keeps (P : receptor -> bool) (r : receptor) (l : label) (o : outcome)
  : bool :=
  if P r then match o with Alive r' => P r' | Degraded => true end else true.

(** The rules of the receptor and MAPK layers. *)
Definition all_rules : list Rule := rules receptor_mapk_model.

(** A receptor with nothing bound, unphosphorylated, at the membrane. *)
Definition fresh (r : receptor) : bool :=
  negb (bl r) && negb (bd r) && negb (b r)
  && bool_decide (st r = StU) && bool_decide (loc r = LocC).

(** Phosphorylated receptors and receptors in the endosome are in a
    dimer. *)
Definition dimer_when_active (r : receptor) : bool :=
  (if bool_decide (st r = StP) then bd r else true)
  && (if bool_decide (loc r = LocE) then bd r else true).

(** The label of the cross-phosphorylation rule of kinase [i] acting on a
    receptor of type [t]. *)
Definition cross_phospho_label (i : string) (t : erbb_ty) : label :=
  (Named ("cross_phospho_" +:+ i +:+ "_" +:+ ty_name t), Fwd).

(** The label of the catalytic dephosphorylation rule of receptor type
    [t]. *)
Definition dephospho_label (t : erbb_ty) : label :=
  (Named ("dephosphoC_" +:+ ty_name t +:+ "_4"), Fwd).

(** A step that phosphorylates is a cross-phosphorylation of a dimerized
    receptor; a step that dephosphorylates is the catalytic step of the
    receptor's dephosphorylation rule, and releases the [b] site. *)
Definition phospho_step (r : receptor) (l : label) (o : outcome) : bool :=
  match o with
  | Degraded => true
  | Alive r' =>
      match st r, st r' with
      | StU, StP =>
          bd r && existsb (fun i => bool_decide (l = cross_phospho_label i (ty r)))
                    ["1"; "2"; "4"]
      | StP, StU =>
          bool_decide (l = dephospho_label (ty r)) && b r && negb (b r')
      | _, _ => true
      end
  end.

Definition GAP_binding : label := (Named "GAP_dimerization", Fwd).
Definition GAP_release : label := (Named "GAP_dimerization", Rev).

(** Binding [GAP] needs a phosphorylated, dimerized receptor with a free
    [b] site and changes at most that site; releasing it needs the same
    with the site free or bound, and leaves it free. *)
Definition GAP_step (r : receptor) (l : label) (o : outcome) : bool :=
  if bool_decide (l = GAP_binding) || bool_decide (l = GAP_release) then
    match o with
    | Degraded => false
    | Alive r' =>
        bool_decide (st r = StP) && bd r
        && bool_decide (r' = Receptor (bl r) (bd r) (b r') (ty r) (st r) (loc r))
        && (if bool_decide (l = GAP_binding) then negb (b r) else negb (b r'))
    end
  else true.

(** Every rate of every rule is a parameter of the model. *)
Definition rates_declared (m : Model) : Prop :=
  forall r, r ∈ rules m ->
    r_rate_forward r ∈ parameters m
    /\ forall q, r_rate_reverse r = Some q -> q ∈ parameters m.


(** A declaration only adds to the model. *)
Definition extends (m m' : Model) : Prop :=
  monomers m `prefix_of` monomers m'
  /\ parameters m `prefix_of` parameters m'
  /\ rules m `prefix_of` rules m'
  /\ initial_conditions m `prefix_of` initial_conditions m'.

(** The same number in lowest terms. *)
Definition lowest_terms (x : float64) : float64 :=
  match x with
  | Fin q => Fin (Qred q)
  | _ => x
  end.

(** [x] is numerically equal to the rational [q]. *)
Definition equals (q : Q) (x : float64) : Prop :=
  match x with
  | Fin a => (a == q)%Q
  | _ => False
  end.

(** A finite number that is not negative. *)
Definition nonnegative (x : float64) : Prop :=
  match x with
  | Fin q => (0 <= q)%Q
  | _ => False
  end.

(** The two heading lines of the report. *)
Definition report_headings : list event :=
  [EvPrint "" [];
   EvPrint "%-10s %-12s %-12s %s"
     [VStr "parameter"; VStr "actual"; VStr "fitted"; VStr "log10(fit/actual)"]].

(** The report line of a parameter and its fitted value. *)
Definition report_line (log10 : float64 -> float64) (pv : Param * float64)
  : event :=
  EvPrint "%-10s %-12.2g %-12.2g %-+6.2f"
    [VName (p_name pv.1); VFloat (Fin (p_value pv.1)); VFloat pv.2;
     VFloat (log10 (fdiv pv.2 (Fin (p_value pv.1))))].

(** Every index is inside the array. *)
Definition in_bounds (a : vector) (idx : list nat) : Prop :=
  Forall (fun i => i < length a) idx.

(** A solver that always fails, and a sampler whose index list points
    outside its parameters. *)
Definition failing_odesolve (m : Model) (tspan : vector) : result recarray :=
  Raise (LibraryError "integration failed").

Definition out_of_range_mcmc : MCMC :=
  {| simulate_fn := simulate_fn toy_mcmc;
     iter := 40; sig_value := Fin 1; T := Fin 1; acceptance := 10;
     accept_likelihood := Fin 1; accept_prior := Fin 1;
     accept_posterior := Fin 2;
     cur_params := [Fin 1; Fin 2; Fin 3]; estimate_idx := [0; 7];
     get_mixed_accepts := fun burn =>
       match burn with
       | VFloat x => Ok [[x]]
       | VInt z => Ok [[of_Z z]]
       | _ => Raise TypeError
       end |}.

(** A declaration only adds to the model, and keeps every rule's rates
    declared. *)
Definition well_behaved (d : decl) : Prop :=
  forall m, extends m (d m) /\ (rates_declared m -> rates_declared (d m)).

(** The declaration functions of the module. *)
Definition module_functions : list decl :=
  [rec_monomers; rec_initial; rec_events;
   mapk_monomers; mapk_initial; mapk_events].

(** What the plot has drawn before it asks for any trajectory: the six
    legend entries and the legend. *)
Definition legend_events : list event :=
  map EvPlotStyle ["r"; "g"; "b"; "k--"; "k"; "k:x"]
  ++ [EvLegend ["pAKT"; "pErbB1"; "pERK"; "initial"; "final"; "data"]
        "lower right"].

(** Not a negative number: [NaN], [+inf], or a finite number at least 0. *)
Definition not_negative (x : float64) : Prop :=
  match x with
  | Fin q => (0 <= q)%Q
  | NInf => False
  | PInf | NaN => True
  end.






(** The styling of line [k] of the three plots with colour [c]. *)
Definition line_styling (kc : nat * string) : list event :=
  [EvSetLine 0 kc.1 "color" kc.2; EvSetLine 1 kc.1 "color" kc.2;
   EvSetLine 2 kc.1 "color" kc.2; EvSetLine 0 kc.1 "linestyle" "--";
   EvSetLine 1 kc.1 "linestyle" ":"; EvSetLine 1 kc.1 "marker" "x"].

End Checks.

(* ===================================================================== *)
(** * Proofs *)
(* ===================================================================== *)

Import Float Numpy Pysb ChenModules ReceptorView Calibration Spec.

(** ** The receptor layer *)

Lemma all_receptors_complete (r : receptor) : In r all_receptors.
Proof.
  destruct r as [[] [] [] [] [] []];
    vm_compute; repeat (first [left; reflexivity | right]).
Qed.

Lemma check_all_receptors (P : receptor -> bool) :
  forallb P all_receptors = true -> forall r, P r = true.
Proof.
  intros H r. rewrite forallb_forall in H. apply H, all_receptors_complete.
Qed.

Lemma membrane_no_degradation (r : receptor) (l : label) :
  loc r = LocC -> ~ receptor_step rec_rules r l Degraded.
Proof.
  intros Hloc Hstep.
  assert (H : never_degraded_at_membrane rec_rules r = true)
    by (apply check_all_receptors; vm_compute; reflexivity).
  unfold never_degraded_at_membrane, at_membrane in H.
  rewrite bool_decide_eq_true_2 in H by done.
  rewrite forallb_forall in H. specialize (H _ Hstep). discriminate.
Qed.

Lemma degradation_unique (r : receptor) (l : label) :
  receptor_step rec_rules r l Degraded ->
  l = degradation /\ loc r = LocE /\ bd r = true.
Proof.
  intros Hstep.
  assert (H : degraded_only_by rec_rules degradation r = true)
    by (apply check_all_receptors; vm_compute; reflexivity).
  unfold degraded_only_by in H. rewrite forallb_forall in H.
  specialize (H _ Hstep). simpl in H.
  apply andb_prop in H as [H Hbd]. apply andb_prop in H as [Hl Hloc].
  apply bool_decide_eq_true_1 in Hl, Hloc. done.
Qed.

Lemma internalization_unique (r r' : receptor) (l : label) :
  receptor_step rec_rules r l (Alive r') -> loc r = LocC -> loc r' = LocE ->
  l = internalization /\ bd r = true /\ bd r' = true.
Proof.
  intros Hstep HC HE.
  assert (H : internalized_only_by rec_rules internalization r = true)
    by (apply check_all_receptors; vm_compute; reflexivity).
  unfold internalized_only_by, at_membrane in H. rewrite forallb_forall in H.
  specialize (H _ Hstep). simpl in H.
  rewrite !bool_decide_eq_true_2 in H by done. simpl in H.
  apply andb_prop in H as [H Hbd']. apply andb_prop in H as [Hl Hbd].
  apply bool_decide_eq_true_1 in Hl. done.
Qed.

Lemma run_degraded_last (r : receptor) (ls : list label) (o : outcome) :
  receptor_run rec_rules r ls o -> o = Degraded ->
  exists mid, ls = mid ++ [degradation].
Proof.
  induction 1 as [r | r l r' ls o Hstep Hrun IH | r l Hstep]; intros Ho.
  - discriminate.
  - destruct IH as [mid ->]; [done |]. by exists (l :: mid).
  - apply degradation_unique in Hstep as [-> _]. by exists [].
Qed.

Lemma run_degraded_internalized (r : receptor) (ls : list label) (o : outcome) :
  receptor_run rec_rules r ls o -> o = Degraded -> loc r = LocC ->
  exists pre mid, ls = pre ++ internalization :: mid ++ [degradation].
Proof.
  induction 1 as [r | r l r' ls o Hstep Hrun IH | r l Hstep]; intros Ho HC.
  - discriminate.
  - destruct (decide (loc r' = LocC)) as [HC' | HE].
    + destruct IH as (pre & mid & ->); [done.. |]. by exists (l :: pre), mid.
    + assert (loc r' = LocE) as HE' by (destruct (loc r'); congruence).
      apply internalization_unique in Hstep as [-> _]; [| done..].
      destruct (run_degraded_last _ _ _ Hrun Ho) as [mid ->].
      by exists [], mid.
  - by apply membrane_no_degradation in Hstep.
Qed.

(** C10.  In the receptor layer a receptor at the cell membrane is never
    degraded.  For a receptor that starts at the membrane and whose history
    ends in degradation: no rule degrades it where it stands; its history
    contains an internalization step before the final degradation step; in
    general the only step that removes a receptor is the degradation rule,
    taken by a dimerized receptor in the endosome, and the only step that
    moves a receptor from the membrane to the endosome is the forward
    direction of the reversible internalization rule, taken by a dimerized
    receptor.  The one rule that removes receptors has both members of the
    dimer at [loc='E'], every receptor of the initial conditions is at the
    membrane, and no rule ties a third receptor into a complex, so the
    degradation rule removes no receptor but the two it names. *)
Theorem membrane_receptor_degraded_only_after_internalization :
  forall (r : receptor) (ls : list label),
    loc r = LocC -> receptor_run rec_rules r ls Degraded ->
    (forall l, ~ receptor_step rec_rules r l Degraded)
    /\ (exists pre mid, ls = pre ++ internalization :: mid ++ [degradation])
    /\ (forall r1 l1, receptor_step rec_rules r1 l1 Degraded ->
          l1 = degradation /\ loc r1 = LocE /\ bd r1 = true)
    /\ (forall r1 l1 r2, receptor_step rec_rules r1 l1 (Alive r2) ->
          loc r1 = LocC -> loc r2 = LocE ->
          l1 = internalization /\ bd r1 = true /\ bd r2 = true)
    /\ map r_reactants (filter removes_receptor rec_rules)
       = [[[MP "erbb" [("bd", SBond 1); ("loc", SState "E")];
            MP "erbb" [("bd", SBond 1); ("loc", SState "E")]]]]
    /\ map (fun ru => (r_reactants ru, r_products ru, r_reversible ru))
         (filter (fun ru => bool_decide (r_name ru = Named "rec_intern")) rec_rules)
       = [([[MP "erbb" [("bd", SBond 1); ("loc", SState "C")];
             MP "erbb" [("bd", SBond 1); ("loc", SState "C")]]],
           [[MP "erbb" [("bd", SBond 1); ("loc", SState "E")];
             MP "erbb" [("bd", SBond 1); ("loc", SState "E")]]],
           true)]
    /\ (forall r0, initial_receptor receptor_model r0 = true -> loc r0 = LocC)
    /\ receptors_pair_only receptor_model = true.
Proof.
  intros r ls HC Hrun.
  split; [intros l; by apply membrane_no_degradation |].
  split; [by eapply run_degraded_internalized |].
  split; [intros r1 l1; apply degradation_unique |].
  split; [intros r1 l1 r2; apply internalization_unique |].
  split; [vm_compute; reflexivity |].
  split; [vm_compute; reflexivity |].
  split; [| vm_compute; reflexivity].
  intros r0. destruct r0 as [[] [] [] [] [] []]; vm_compute; congruence.
Qed.

Lemma membrane_receptor_degraded_only_after_internalization_witness :
  let r := Receptor false false false Ty1 StU LocC in
  let dimerize : label :=
    (Generated "bind" [[with_site (free_UC "1") "bd" SNone];
                       [with_site (free_UC "1") "bd" SNone]] "", Fwd) in
  exists pre mid,
    [dimerize; internalization; degradation]
    = pre ++ internalization :: mid ++ [degradation].
Proof.
  intros r dimerize.
  refine (proj1 (proj2
    (membrane_receptor_degraded_only_after_internalization r
       [dimerize; internalization; degradation] eq_refl _))).
  apply run_step with (r' := Receptor false true false Ty1 StU LocC).
  { vm_compute. repeat (first [left; reflexivity | right]). }
  apply run_step with (r' := Receptor false true false Ty1 StU LocE).
  { vm_compute. repeat (first [left; reflexivity | right]). }
  apply run_degrade.
  vm_compute. repeat (first [left; reflexivity | right]).
Defined.

(** C7.  The receptor layer declares exactly twelve rules that turn ATP into
    ADP, one for every kinase receptor [i] in 1, 2, 4 and every partner [j]
    in 1, 2, 3, 4, in that order; each is the irreversible rule
    [cross_phospho_rule i j] with a rate parameter [kcp i j] of value
    [KC = 1]; the rules have distinct names, their parameters are declared
    in the model, and the rules that let a receptor take up free ATP are
    those of receptor types 1, 2 and 4. *)
Theorem cross_phosphorylation_rules :
  filter consumes_ATP rec_rules
    = (i ← ["1"; "2"; "4"]; j ← ["1"; "2"; "3"; "4"]; [cross_phospho_rule i j])
  /\ length (filter consumes_ATP rec_rules) = 12
  /\ KC = 1%Q
  /\ Forall (fun ru => r_rate_forward ru ∈ parameters receptor_model
                       /\ p_value (r_rate_forward ru) = KC
                       /\ r_reversible ru = false)
       (filter consumes_ATP rec_rules)
  /\ NoDup (map r_name (filter consumes_ATP rec_rules))
  /\ flat_map ATP_binding_types rec_rules
     = [SState "1"; SState "2"; SState "4"].
Proof.
  assert (Hrules : filter consumes_ATP rec_rules
    = (i ← ["1"; "2"; "4"]; j ← ["1"; "2"; "3"; "4"]; [cross_phospho_rule i j]))
    by (vm_compute; reflexivity).
  split; [exact Hrules |]. rewrite Hrules.
  split; [reflexivity |]. split; [reflexivity |].
  split.
  - repeat constructor; apply list_elem_of_In; vm_compute;
      repeat (first [left; reflexivity | right]).
  - split; [| vm_compute; reflexivity].
    apply (bool_decide_unpack _). vm_compute. exact I.
Qed.

(** ** The diagnostics callback *)

Lemma iobind_lift_ok {A B} (a : A) (f : A -> io B) :
  iobind (lift (Ok a)) f = f a.
Proof. unfold iobind, lift. by destruct (f a) as [tr r]. Qed.







(** ** The script *)

Lemma iobind_ok {A B} (m : io A) (f : A -> io B) (tr : list event) (b : B) :
  iobind m f = (tr, Ok b) ->
  exists tr1 a tr2, m = (tr1, Ok a) /\ f a = (tr2, Ok b) /\ tr = tr1 ++ tr2.
Proof.
  destruct m as [tr1 [a | e]]; simpl; [| discriminate].
  destruct (f a) as [tr2 r] eqn:Ef. intros [= <- ->]. by exists tr1, a, tr2.
Qed.

Lemma lift_ok {A} (r : result A) (tr : list event) (a : A) :
  lift r = (tr, Ok a) -> r = Ok a /\ tr = [].
Proof. unfold lift. by intros [= <- ->]. Qed.

Lemma emits_only_bind {A B} P (m : io A) (f : A -> io B) :
  emits_only P m -> (forall a, emits_only P (f a)) -> emits_only P (iobind m f).
Proof.
  unfold emits_only. destruct m as [tr [a | e]]; simpl; [| done].
  intros Hm Hf. specialize (Hf a). destruct (f a) as [tr' r]. simpl in *.
  by apply Forall_app.
Qed.

Lemma emits_only_lift {A} P (r : result A) : emits_only P (lift r).
Proof. constructor. Qed.

Lemma emits_only_ret {A} P (a : A) : emits_only P (ioret a).
Proof. constructor. Qed.

Lemma emits_only_emit (P : event -> Prop) e : P e -> emits_only P (emit e).
Proof. intros H. by constructor. Qed.

Lemma emits_only_for {A} P (xs : list A) (body : A -> io unit) :
  (forall x, emits_only P (body x)) -> emits_only P (io_for xs body).
Proof.
  intros Hb. induction xs as [| x xs IH]; simpl.
  - apply emits_only_ret.
  - apply emits_only_bind; [apply Hb | done].
Qed.

Lemma files_of_snoc (tr : list event) (f : string) (c : npy) :
  files_of (tr ++ [EvSave f c]) = <[f := c]> (files_of tr).
Proof. unfold files_of. by rewrite foldl_app. Qed.

Lemma iobind_emit {B} (e : event) (f : unit -> io B) :
  iobind (emit e) f = (e :: (f tt).1, (f tt).2).
Proof. unfold iobind, emit. by destruct (f tt) as [tr r]. Qed.

Create HintDb emits.
#[local] Hint Resolve emits_only_lift emits_only_ret : emits.
#[local] Hint Extern 1 (emits_only _ (emit _)) =>
  (apply emits_only_emit; done) : emits.
#[local] Hint Extern 1 (emits_only _ (print _ _)) =>
  (apply emits_only_emit; done) : emits.
#[local] Hint Extern 1 (emits_only _ (plt_plot _ _)) =>
  (unfold plt_plot; destruct (Nat.eqb _ _);
   [apply emits_only_emit; done | apply emits_only_lift]) : emits.
#[local] Hint Extern 2 (emits_only _ (iobind _ _)) =>
  (apply emits_only_bind; [| intros ?]) : emits.
#[local] Hint Extern 2 (emits_only _ (io_for _ _)) =>
  (apply emits_only_for; intros ?) : emits.

Lemma burn_in : int_truediv 50000 10 = Ok (Fin 5000).
Proof. vm_compute. reflexivity. Qed.

Lemma take_indices_Forall2 (a : vector) (idx : list nat) (v : vector) :
  take_indices a idx = Ok v <-> Forall2 (fun i x => a !! i = Some x) idx v.
Proof.
  revert v. induction idx as [| i idx IH]; intros v; simpl.
  - split.
    + intros [= <-]. constructor.
    + intros H. by apply Forall2_nil_inv_l in H as ->.
  - destruct (a !! i) as [x |] eqn:Hx.
    + destruct (take_indices a idx) as [xs | e]; simpl.
      * split.
        -- intros [= <-]. constructor; [done | by apply IH].
        -- intros H. apply Forall2_cons_inv_l in H as (y & ys & Hy & Hys & ->).
           apply IH in Hys as [= ->]. congruence.
      * split; [done |].
        intros H. apply Forall2_cons_inv_l in H as (y & ys & Hy & Hys & ->).
        by apply IH in Hys.
    + split; [done |].
      intros H. apply Forall2_cons_inv_l in H as (y & ys & Hy & Hys & ->).
      congruence.
Qed.

Section ScriptProofs.

Context (ydata_norm exp_var : matrix) (log10 : float64 -> float64)
        (model : Model) (bayessb_run : MCMCOpts -> io MCMC)
        (odesolve : Model -> vector -> result recarray).

Local Abbreviation script_opts := (script_opts ydata_norm exp_var log10 model).
Local Abbreviation likelihood := (likelihood ydata_norm exp_var).
Local Abbreviation main :=
  (main ydata_norm exp_var log10 model bayessb_run odesolve).
Local Abbreviation default_opts :=
  (default_opts ydata_norm exp_var log10 model).

Lemma script_opts_default : script_opts scenario = Ok default_opts.
Proof.
  unfold Calibration.script_opts, choose_scenario, scenario. simpl.
  unfold attr_params. by rewrite lookup_insert_eq.
Qed.

Lemma default_opts_nsteps : attr_int default_opts "nsteps" = Ok 50000%Z.
Proof. reflexivity. Qed.

Lemma default_opts_estimate_params :
  attr_params default_opts "estimate_params" = Ok (parameters_rules model).
Proof. reflexivity. Qed.

Lemma report_no_save ps mcmc :
  emits_only (fun e => is_save e = false) (report log10 ps mcmc).
Proof. unfold report. auto 20 with emits. Qed.

Lemma simulate_no_save mcmc pos obs :
  emits_only (fun e => is_save e = false) (simulate mcmc pos obs).
Proof. by constructor. Qed.

Lemma plot_fit_no_save mcmc :
  emits_only (fun e => is_save e = false)
    (plot_fit ydata_norm model odesolve mcmc).
Proof.
  pose proof simulate_no_save. unfold plot_fit. auto 40 with emits.
Qed.

Lemma likelihood_unfold (mcmc : MCMC) (position : vector) :
  likelihood mcmc position =
  ([solver_call position],
   (ysim <- simulate_fn mcmc (Some position) true;;
    ysim_array <- extract_records ysim obs_names;;
    ysim_norm <- normalize ysim_array;;
    diff <- binop fsub ydata_norm ysim_norm;;
    terms <- binop fdiv (map_matrix fsquare diff)
               (map_matrix (fmul (Fin 2)) (map_matrix fsquare exp_var));;
    Ok (msum terms))%result).
Proof.
  unfold Calibration.likelihood, simulate, solver_call.
  destruct (simulate_fn mcmc (Some position) true) as [ysim | e]; simpl; [| done].
  destruct (extract_records ysim obs_names) as [ysim_array | e]; simpl; [| done].
  destruct (normalize ysim_array) as [ysim_norm | e]; simpl; [| done].
  destruct (binop fsub ydata_norm ysim_norm) as [diff | e]; simpl; [| done].
  by destruct (binop fdiv _ _) as [terms | e].
Qed.

Lemma likelihood_evaluations (mcmc : MCMC) (ps : list vector) :
  let evals := io_for ps (fun p => iobind (likelihood mcmc p) (fun _ => ioret tt)) in
  exists k, k <= length ps
    /\ evals.1 = map solver_call (take k ps)
    /\ (evals.2 = Ok tt -> k = length ps).
Proof.
  induction ps as [| p ps (k & Hk & Htr & Hok)]; simpl.
  - exists 0. by repeat split.
  - rewrite likelihood_unfold.
    destruct (rbind _ _) as [x | e]; simpl.
    + destruct (io_for ps _) as [tr r]. simpl in *.
      exists (S k). split; [lia |]. split; [by rewrite Htr |].
      intros Hr. by rewrite Hok.
    + exists 1. split; [lia |]. split; [by destruct ps |]. done.
Qed.

(** C4.  The options handed to the sampler fix [nsteps = 50000] and the
    ten-point time span, and install [likelihood] as the likelihood
    callback; the script then runs the sampler on these options.  Every
    evaluation of [likelihood] calls [mcmc.simulate] exactly once, at the
    position it is given and with [observables=True], and scores the
    trajectories that call returns; so evaluating it at a sequence of
    positions makes one solver call per evaluation, in order. *)
Theorem sampler_configuration_and_solver_calls :
  (exists opts : MCMCOpts,
     script_opts scenario = Ok opts
     /\ opts !! "nsteps" = Some (OInt 50000)
     /\ opts !! "tspan" = Some (OArray tspan)
     /\ opts !! "likelihood_fn" = Some (OLikelihood likelihood)
     /\ main.1 = (bayessb_run opts).1
                  ++ match (bayessb_run opts).2 with
                     | Ok mcmc =>
                         (iobind (report log10 (parameters_rules model) mcmc)
                            (fun _ => iobind (plot_fit ydata_norm model odesolve mcmc)
                               (fun _ => save_results opts mcmc))).1
                     | Raise _ => []
                     end)
  /\ tspan = [Fin 0; Fin 150; Fin 300; Fin 450; Fin 600; Fin 900; Fin 1800;
              Fin 2700; Fin 3600; Fin 7200]
  /\ length tspan = 10
  /\ (forall mcmc position,
        likelihood mcmc position =
        ([EvSimulate (Some position) true],
         (ysim <- simulate_fn mcmc (Some position) true;;
          ysim_array <- extract_records ysim obs_names;;
          ysim_norm <- normalize ysim_array;;
          diff <- binop fsub ydata_norm ysim_norm;;
          terms <- binop fdiv (map_matrix fsquare diff)
                     (map_matrix (fmul (Fin 2)) (map_matrix fsquare exp_var));;
          Ok (msum terms))%result))
  /\ (forall mcmc (ps : list vector),
        let evals :=
          io_for ps (fun p => iobind (likelihood mcmc p) (fun _ => ioret tt)) in
        exists k, k <= length ps
          /\ evals.1 = map (fun p => EvSimulate (Some p) true) (take k ps)
          /\ (evals.2 = Ok tt -> k = length ps)).
Proof.
  split.
  { exists default_opts. split; [apply script_opts_default |].
    split; [done |]. split; [done |]. split; [done |].
    unfold Calibration.main. rewrite script_opts_default, iobind_lift_ok.
    destruct (bayessb_run default_opts) as [pre [mcmc | e]]; simpl.
    - change (attr_params default_opts "estimate_params")
        with (Ok (parameters_rules model)).
      cbv iota. destruct (iobind (report _ _ _) _) as [tr r]. reflexivity.
    - by rewrite app_nil_r. }
  split; [reflexivity |]. split; [reflexivity |].
  split; [apply likelihood_unfold | apply likelihood_evaluations].
Qed.

(** C6.  When the script runs to its end, its trace is that of the sampler
    run, then printing and plotting with no [numpy.save], then exactly two
    saves: the array [mcmc.get_mixed_accepts(burn=5000.0)], where
    [5000.0 = nsteps / 10], to 'calibration_allpositions_A431_highEGF.npy',
    and the pairs of each estimated parameter with the value [cur_params]
    holds at the matching index of [estimate_idx] to
    'calibration_fittedparams_A431_highEGF.npy'; both files hold these
    contents when the script ends. *)
Theorem results_saved_after_run :
  forall tr : list event,
    main = (tr, Ok tt) ->
    exists (opts : MCMCOpts) (mcmc : MCMC) (pre mid : list event)
           (samples : matrix) (fitted : vector),
      script_opts scenario = Ok opts
      /\ opts !! "nsteps" = Some (OInt 50000)
      /\ bayessb_run opts = (pre, Ok mcmc)
      /\ int_truediv 50000 10 = Ok (Fin 5000)
      /\ get_mixed_accepts mcmc (VFloat (Fin 5000)) = Ok samples
      /\ Forall2 (fun i v => cur_params mcmc !! i = Some v)
           (estimate_idx mcmc) fitted
      /\ Forall (fun e => is_save e = false) mid
      /\ tr = pre ++ mid ++
              [EvSave "calibration_allpositions_A431_highEGF.npy"
                 (NpyArray samples);
               EvSave "calibration_fittedparams_A431_highEGF.npy"
                 (NpyPairs (zip (parameters_rules model) fitted))]
      /\ files_of tr !! "calibration_allpositions_A431_highEGF.npy"
         = Some (NpyArray samples)
      /\ files_of tr !! "calibration_fittedparams_A431_highEGF.npy"
         = Some (NpyPairs (zip (parameters_rules model) fitted)).
Proof.
  intros tr Hmain. unfold Calibration.main in Hmain.
  rewrite script_opts_default, iobind_lift_ok in Hmain.
  apply iobind_ok in Hmain as (pre & mcmc & tr1 & Hrun & Hmain & ->).
  rewrite default_opts_estimate_params, iobind_lift_ok in Hmain.
  apply iobind_ok in Hmain as (trr & [] & tr2 & Hrep & Hmain & ->).
  apply iobind_ok in Hmain as (trp & [] & tr3 & Hplot & Hsave & ->).
  unfold save_results in Hsave.
  rewrite default_opts_nsteps, iobind_lift_ok in Hsave.
  rewrite burn_in, iobind_lift_ok in Hsave.
  destruct (get_mixed_accepts mcmc (VFloat (Fin 5000))) as [samples | e] eqn:Hs;
    [| discriminate].
  rewrite iobind_lift_ok, iobind_emit in Hsave.
  rewrite default_opts_estimate_params, iobind_lift_ok in Hsave.
  destruct (fitted_values mcmc) as [fitted | e] eqn:Hfit; [| discriminate].
  rewrite iobind_lift_ok in Hsave. simpl in Hsave. injection Hsave as <-.
  exists default_opts, mcmc, pre, (trr ++ trp), samples, fitted.
  split; [apply script_opts_default |]. split; [done |].
  split; [done |]. split; [apply burn_in |]. split; [done |].
  split; [by apply take_indices_Forall2 |].
  split.
  { apply Forall_app. split.
    - pose proof (report_no_save (parameters_rules model) mcmc) as H.
      unfold emits_only in H. by rewrite Hrep in H.
    - pose proof (plot_fit_no_save mcmc) as H.
      unfold emits_only in H. by rewrite Hplot in H. }
  split; [by rewrite <- !app_assoc |].
  set (s1 := EvSave "calibration_allpositions_A431_highEGF.npy" _).
  set (s2 := EvSave "calibration_fittedparams_A431_highEGF.npy" _).
  replace (pre ++ trr ++ trp ++ [s1; s2])
    with (((pre ++ trr ++ trp) ++ [s1]) ++ [s2])
    by (by rewrite <- !app_assoc).
  unfold s1, s2. rewrite !files_of_snoc. split.
  - rewrite lookup_insert_ne by done. by rewrite lookup_insert_eq.
  - by rewrite lookup_insert_eq.
Qed.

End ScriptProofs.

Lemma results_saved_after_run_witness :
  let m := main ten_point_data ten_point_sd (fun x => x) receptor_model
             ten_point_run ten_point_odesolve in
  m.2 = Ok tt
  /\ files_of m.1 !! "calibration_allpositions_A431_highEGF.npy"
     = Some (NpyArray [[Fin 5000]])
  /\ files_of m.1 !! "calibration_fittedparams_A431_highEGF.npy"
     = Some (NpyPairs (zip (parameters_rules receptor_model) [Fin 1; Fin 3])).
Proof.
  intros m.
  assert (Hm : m = (m.1, Ok tt)) by (vm_compute; reflexivity).
  split; [by rewrite Hm |].
  destruct (results_saved_after_run ten_point_data ten_point_sd (fun x => x)
              receptor_model ten_point_run ten_point_odesolve m.1 Hm)
    as (opts & mcmc & pre & mid & samples & fitted
        & _ & _ & Hrun & _ & Hs & Hfit & _ & _ & H1 & H2).
  injection Hrun as _ <-.
  injection Hs as <-.
  apply take_indices_Forall2 in Hfit. injection Hfit as <-.
  split; [exact H1 | exact H2].
Defined.

(** ** Arrays *)

Lemma map_result_Forall2 {A B} (f : A -> result B) (xs : list A) (ys : list B) :
  map_result f xs = Ok ys <-> Forall2 (fun x y => f x = Ok y) xs ys.
Proof.
  revert ys. induction xs as [| x xs IH]; intros ys; simpl.
  - split; [intros [= <-]; constructor | by inversion 1].
  - destruct (f x) as [y | e] eqn:Hfx; simpl.
    + destruct (map_result f xs) as [ys' | e] eqn:Hxs; simpl.
      * split.
        -- intros [= <-]. constructor; [done | by apply IH].
        -- inversion 1 as [| ? y' ? ys'' Hy Hys]; subst.
           apply IH in Hys. congruence.
      * split; [done |]. inversion 1 as [| ? y' ? ys'' Hy Hys]; subst.
        apply IH in Hys. congruence.
    + split; [done |]. inversion 1; congruence.
Qed.

Lemma field_records (n : nat) (r : recarray) (name : string) (col : vector) :
  records n r -> field r name = Ok col -> length col = n.
Proof.
  unfold records. induction r as [| [nm c] r IH]; simpl; [done |].
  intros Hr. apply Forall_cons in Hr as [Hc Hr]. simpl in Hc.
  destruct (String.eqb nm name); [by intros [= <-] | by apply IH].
Qed.

Lemma vstack_ok (n : nat) (arrs : list vector) :
  arrs <> [] -> rectangular n arrs -> vstack arrs = Ok arrs.
Proof.
  destruct arrs as [| a rest]; [done |]. intros _ Hrect.
  apply Forall_cons in Hrect as [Ha Hrest]. simpl.
  replace (forallb _ rest) with true; [done |].
  symmetry. apply forallb_forall. intros b Hb.
  rewrite Forall_forall in Hrest. apply list_elem_of_In in Hb.
  rewrite (Hrest b Hb), Ha. apply Nat.eqb_refl.
Qed.

Lemma ncols_rectangular (c : nat) (m : matrix) :
  m <> [] -> rectangular c m -> ncols m = c.
Proof.
  destruct m as [| r m]; [done |]. intros _ H.
  by apply Forall_cons in H as [H _].
Qed.

Lemma transpose_aux_length (c : nat) (m : matrix) :
  rectangular c m -> length (foldr (zip_with cons) (replicate c []) m) = c.
Proof.
  induction m as [| r m IH]; simpl; intros H.
  - apply length_replicate.
  - apply Forall_cons in H as [Hr Hm].
    rewrite length_zip_with, IH, Hr by done. lia.
Qed.

Lemma transpose_aux_rows (c : nat) (m : matrix) :
  rectangular (length m) (foldr (zip_with cons) (replicate c []) m).
Proof.
  unfold rectangular. induction m as [| r m IH]; simpl.
  - by apply Forall_replicate.
  - apply Forall_lookup. intros i l Hl.
    apply lookup_zip_with_Some in Hl as (x & l' & -> & _ & Hl').
    rewrite Forall_lookup in IH. simpl. by rewrite (IH i l').
Qed.

Lemma transpose_aux_entry (c : nat) (m : matrix) (t k : nat) :
  rectangular c m ->
  entry (foldr (zip_with cons) (replicate c []) m) t k = entry m k t.
Proof.
  unfold entry. revert k. induction m as [| r m IH]; intros k H; simpl.
  - destruct (decide (t < c)) as [Hlt | Hge].
    + rewrite lookup_replicate_2 by done. simpl. by rewrite lookup_nil.
    + rewrite lookup_ge_None_2; [done |]. rewrite length_replicate. lia.
  - apply Forall_cons in H as [Hr Hm].
    rewrite lookup_zip_with.
    destruct (r !! t) as [x |] eqn:Ex; simpl.
    + destruct (lookup_lt_is_Some_2 (foldr (zip_with cons) (replicate c []) m) t)
        as [l El].
      { rewrite transpose_aux_length by done. rewrite <- Hr.
        by eapply lookup_lt_Some. }
      rewrite El. simpl. destruct k as [| k]; simpl; [done |].
      specialize (IH k Hm). rewrite El in IH. exact IH.
    + destruct k as [| k]; simpl; [by rewrite Ex |].
      destruct (m !! k) as [r' |] eqn:Er'; simpl; [| done].
      symmetry. apply lookup_ge_None.
      rewrite Forall_forall in Hm.
      rewrite (Hm r') by (by eapply list_elem_of_lookup_2).
      rewrite <- Hr. by apply lookup_ge_None.
Qed.

Lemma transpose_entry (c : nat) (m : matrix) (t k : nat) :
  m <> [] -> rectangular c m -> entry (transpose m) t k = entry m k t.
Proof.
  intros Hne H. unfold transpose. rewrite (ncols_rectangular c) by done.
  by apply transpose_aux_entry.
Qed.

Lemma transpose_shape (c : nat) (m : matrix) :
  m <> [] -> rectangular c m ->
  length (transpose m) = c /\ rectangular (length m) (transpose m).
Proof.
  intros Hne H. unfold transpose. rewrite (ncols_rectangular c) by done.
  split; [by apply transpose_aux_length | apply transpose_aux_rows].
Qed.

(** ** Extracting observables *)

(** C9, as stated, fails for an empty list of names: [numpy.vstack] has
    nothing to stack and raises. *)
Lemma extract_records_no_names :
  let r : recarray := [("obsAKTPP"%string, [Fin 0; Fin 1])] in
  Forall (fun name => is_ok (field r name) = true) []
  /\ extract_records r [] = Raise ValueError
  /\ ~ extracts_columns r [].
Proof.
  intros r. split; [constructor |]. split; [reflexivity |].
  intros (m & Hm & _). discriminate.
Qed.

(** C9 (amended).  For a non-empty list of names and a record array of [n]
    records that has every one of the names as a field, [extract_records]
    returns an array of [n] rows and one column per name, whose entry at
    row [t], column [k] is [r[names[k]][t]]. *)
Theorem extract_records_columns :
  forall (n : nat) (r : recarray) (names : list string),
    names <> [] ->
    records n r ->
    Forall (fun name => is_ok (field r name) = true) names ->
    exists m, extract_records r names = Ok m
      /\ length m = n
      /\ rectangular (length names) m
      /\ forall t k name col,
           names !! k = Some name -> field r name = Ok col ->
           entry m t k = col !! t.
Proof.
  intros n r names Hne Hrec Hall.
  assert (Hcols : exists cols, Forall2 (fun x y => field r x = Ok y) names cols).
  { clear Hne. induction names as [| x names IH].
    - exists []. constructor.
    - apply Forall_cons in Hall as [Hx Hall].
      destruct (IH Hall) as [cols Hcols].
      destruct (field r x) as [col |] eqn:Hf; [| done].
      exists (col :: cols). by constructor. }
  destruct Hcols as [cols Hcols].
  assert (Hlen : length cols = length names)
    by (symmetry; by eapply Forall2_length).
  assert (Hrect : rectangular n cols).
  { unfold rectangular. apply Forall_forall. intros col Hcol.
    apply list_elem_of_lookup_1 in Hcol as [k Hk].
    destruct (Forall2_lookup_r _ _ _ _ _ Hcols Hk) as (name & _ & Hf).
    by eapply field_records. }
  assert (Hcne : cols <> []) by (intros ->; by destruct names).
  unfold extract_records.
  apply map_result_Forall2 in Hcols as Hmap. rewrite Hmap. simpl.
  rewrite (vstack_ok n) by done. simpl.
  destruct (transpose_shape n cols Hcne Hrect) as [Hrows Hcolsn].
  exists (transpose cols). split; [done |]. split; [done |].
  split; [by rewrite <- Hlen |].
  intros t k name col Hk Hf.
  rewrite (transpose_entry n) by done.
  destruct (Forall2_lookup_l _ _ _ _ _ Hcols Hk) as (col' & Hcol' & Hf').
  unfold entry. rewrite Hcol'. simpl. congruence.
Qed.

Lemma extract_records_columns_witness :
  exists m, extract_records toy_trajectories obs_names = Ok m
    /\ length m = 2
    /\ rectangular (length obs_names) m
    /\ forall t k name col,
         obs_names !! k = Some name -> field toy_trajectories name = Ok col ->
         entry m t k = col !! t.
Proof.
  apply (extract_records_columns 2 toy_trajectories obs_names).
  - discriminate.
  - unfold records. repeat constructor.
  - repeat constructor.
Defined.

(** ** Broadcasting *)

Lemma stretch_id {A} (n : nat) (l : list A) : length l = n -> stretch n l = l.
Proof. destruct l as [| x [| y l]]; simpl; intros <-; done. Qed.

Lemma broadcast_dim_same (a : nat) : broadcast_dim a a = Some a.
Proof. unfold broadcast_dim. by rewrite Nat.eqb_refl. Qed.

Lemma broadcast_dim_one (a : nat) : broadcast_dim a 1 = Some a.
Proof.
  unfold broadcast_dim. destruct (Nat.eqb_spec a 1) as [-> | _]; [done |].
  done.
Qed.

Lemma zip_with_replicate_row {A B C} (g : A -> B -> C) (l : list A) (y : B) :
  zip_with g l (replicate (length l) y) = map (fun x => g x y) l.
Proof. induction l as [| x l IH]; simpl; [done | by rewrite IH]. Qed.

Lemma vec_binop_same f (a b : vector) :
  length a = length b -> vec_binop f a b = Ok (zip_with f a b).
Proof.
  intros H. unfold vec_binop. rewrite H, broadcast_dim_same.
  by rewrite !stretch_id.
Qed.

Lemma binop_row f (m : matrix) (v : vector) (c : nat) :
  m <> [] -> rectangular c m -> length v = c ->
  binop f m (atleast_2d v) = Ok (map (fun r => zip_with f r v) m).
Proof.
  intros Hne Hrect Hv. unfold binop, atleast_2d, nrows.
  rewrite (ncols_rectangular c m) by done.
  unfold ncols. simpl. rewrite Hv, broadcast_dim_one, broadcast_dim_same.
  rewrite (stretch_id (length m) m) by done. simpl.
  rewrite zip_with_replicate_row. f_equal.
  apply Forall_fmap_ext_1. eapply Forall_impl; [exact Hrect |].
  simpl. intros r Hr. by rewrite !stretch_id.
Qed.

Lemma binop_same f (a b : matrix) (c : nat) :
  length a = length b -> rectangular c a -> rectangular c b ->
  binop f a b = Ok (zip_with (zip_with f) a b).
Proof.
  intros Hlen Ha Hb. unfold binop, nrows.
  assert (Hc : ncols a = ncols b).
  { destruct a as [| ra a], b as [| rb b]; try done.
    apply Forall_cons in Ha as [Ha _]. apply Forall_cons in Hb as [Hb _].
    unfold ncols. simpl. by rewrite Ha, Hb. }
  rewrite Hlen, Hc, !broadcast_dim_same, !stretch_id by done.
  f_equal. destruct (decide (a = [])) as [-> | Hne]; [done |].
  assert (b <> []) by (intros ->; by destruct a).
  rewrite (ncols_rectangular c b) by done.
  clear Hc Hne H. revert b Hlen Hb.
  induction a as [| ra a IH]; intros [| rb b] Hlen Hb; try done.
  apply Forall_cons in Ha as [Hra Ha]. apply Forall_cons in Hb as [Hrb Hb].
  simpl. rewrite !stretch_id by done. f_equal. apply IH; [done | | done].
  simpl in Hlen. lia.
Qed.

(** ** Column minima and maxima *)

Lemma at_index_zip_with f (r x : vector) (c k : nat) :
  length r = c -> length x = c -> k < c ->
  at_index (zip_with f r x) k = f (at_index r k) (at_index x k).
Proof.
  intros Hr Hx Hk. unfold at_index. rewrite lookup_zip_with.
  destruct (lookup_lt_is_Some_2 r k) as [a ->]; [lia |].
  destruct (lookup_lt_is_Some_2 x k) as [b ->]; [lia |]. done.
Qed.

Lemma reduce_rows_lookup f (rest : matrix) :
  forall (r : vector) (c k : nat),
    length r = c -> rectangular c rest -> k < c ->
    length (foldl (zip_with f) r rest) = c
    /\ foldl (zip_with f) r rest !! k
       = Some (foldl f (at_index r k) (column rest k)).
Proof.
  induction rest as [| x rest IH]; intros r c k Hr Hrect Hk; simpl.
  - split; [done |]. unfold at_index.
    by destruct (lookup_lt_is_Some_2 r k) as [a ->]; [lia |].
  - apply Forall_cons in Hrect as [Hx Hrect].
    destruct (IH (zip_with f r x) c k) as [Hlen Hlook]; [| done | done |].
    { rewrite length_zip_with. lia. }
    split; [done |]. rewrite Hlook. by rewrite (at_index_zip_with f r x c).
Qed.

Lemma reduce0_spec f (m : matrix) (c : nat) (v : vector) :
  rectangular c m -> reduce0 f m = Ok v ->
  m <> [] /\ length v = c
  /\ forall k, k < c ->
       v !! k = match column m k with
                | [] => None
                | x :: xs => Some (foldl f x xs)
                end.
Proof.
  destruct m as [| r rest]; [done |]. simpl. intros Hrect [= <-].
  apply Forall_cons in Hrect as [Hr Hrect].
  split; [done |]. split.
  - destruct c as [| c'].
    + destruct r; [| done]. clear Hr. induction rest as [| x rest IH]; [done |].
      apply Forall_cons in Hrect as [_ Hrect]. simpl. by apply IH.
    + by apply (reduce_rows_lookup f rest r (S c') 0); [| | lia].
  - intros k Hk. by apply (reduce_rows_lookup f rest r c k).
Qed.

Lemma fle_Fin (a b : Q) : fle (Fin a) (Fin b) = true <-> (a <= b)%Q.
Proof. simpl. apply Qle_bool_iff. Qed.

Lemma flt_Fin (a b : Q) : flt (Fin a) (Fin b) = true <-> (a < b)%Q.
Proof.
  simpl. rewrite negb_true_iff. split.
  - intros H. apply Qnot_le_lt. intros Hle. apply Qle_bool_iff in Hle. congruence.
  - intros H. destruct (Qle_bool b a) eqn:E; [| done].
    apply Qle_bool_iff in E. by apply Qlt_not_le in H.
Qed.

Lemma is_finite_Fin (x : float64) : is_finite x = true -> exists q, x = Fin q.
Proof. destruct x; try done. by eexists. Qed.

Lemma foldl_fmin_finite (xs : vector) :
  forall q, Forall (fun x => is_finite x = true) xs ->
    exists q', foldl fmin (Fin q) xs = Fin q'
      /\ (q' <= q)%Q
      /\ Forall (fun y => fle (Fin q') y = true) xs
      /\ Fin q' ∈ Fin q :: xs.
Proof.
  induction xs as [| y xs IH]; intros q Hfin; simpl.
  - exists q. split; [done |]. split; [apply Qle_refl |].
    split; [constructor | left].
  - apply Forall_cons in Hfin as [Hy Hfin].
    apply is_finite_Fin in Hy as [qy ->]. simpl.
    destruct (Qle_bool q qy) eqn:E.
    + apply Qle_bool_iff in E.
      destruct (IH q Hfin) as (q' & Hq' & Hle & Hall & Hin).
      exists q'. split; [done |]. split; [done |]. split.
      * constructor; [| done]. apply fle_Fin. by eapply Qle_trans.
      * apply elem_of_cons in Hin as [-> | Hin]; [left | right; by right].
    + assert (qy < q)%Q as Hlt.
      { apply Qnot_le_lt. intros H. apply Qle_bool_iff in H. congruence. }
      destruct (IH qy Hfin) as (q' & Hq' & Hle & Hall & Hin).
      exists q'. split; [done |]. split.
      * eapply Qle_trans; [exact Hle |]. by apply Qlt_le_weak.
      * split; [constructor; [by apply fle_Fin | done] | by right].
Qed.

Lemma foldl_fmax_finite (xs : vector) :
  forall q, Forall (fun x => is_finite x = true) xs ->
    exists q', foldl fmax (Fin q) xs = Fin q'
      /\ (q <= q')%Q
      /\ Forall (fun y => fle y (Fin q') = true) xs
      /\ Fin q' ∈ Fin q :: xs.
Proof.
  induction xs as [| y xs IH]; intros q Hfin; simpl.
  - exists q. split; [done |]. split; [apply Qle_refl |].
    split; [constructor | left].
  - apply Forall_cons in Hfin as [Hy Hfin].
    apply is_finite_Fin in Hy as [qy ->]. simpl.
    destruct (Qle_bool q qy) eqn:E.
    + apply Qle_bool_iff in E.
      destruct (IH qy Hfin) as (q' & Hq' & Hle & Hall & Hin).
      exists q'. split; [done |]. split; [by eapply Qle_trans |].
      split; [constructor; [by apply fle_Fin | done] | by right].
    + assert (qy < q)%Q as Hlt.
      { apply Qnot_le_lt. intros H. apply Qle_bool_iff in H. congruence. }
      destruct (IH q Hfin) as (q' & Hq' & Hle & Hall & Hin).
      exists q'. split; [done |]. split; [done |]. split.
      * constructor; [| done]. apply fle_Fin.
        eapply Qle_trans; [| exact Hle]. by apply Qlt_le_weak.
      * apply elem_of_cons in Hin as [-> | Hin]; [left | right; by right].
Qed.

Lemma entry_in_column (m : matrix) (t k : nat) (x : float64) :
  entry m t k = Some x -> x ∈ column m k.
Proof.
  unfold entry, column. destruct (m !! t) as [r |] eqn:Hr; simpl; [| done].
  intros Hx. apply list_elem_of_fmap. exists r.
  split; [unfold at_index; by rewrite Hx | by eapply list_elem_of_lookup_2].
Qed.

Lemma column_in_entry (m : matrix) (c k : nat) (x : float64) :
  rectangular c m -> k < c -> x ∈ column m k -> exists t, entry m t k = Some x.
Proof.
  intros Hrect Hk Hx. unfold column in Hx.
  apply list_elem_of_fmap in Hx as (r & -> & Hr).
  apply list_elem_of_lookup_1 in Hr as [t Ht]. exists t.
  unfold entry, at_index. rewrite Ht. simpl.
  unfold rectangular in Hrect.
  rewrite Forall_lookup in Hrect. specialize (Hrect t r Ht).
  by destruct (lookup_lt_is_Some_2 r k) as [a ->]; [lia |].
Qed.

Lemma column_finite (m : matrix) (c k : nat) :
  all_finite m -> rectangular c m -> k < c ->
  Forall (fun x => is_finite x = true) (column m k).
Proof.
  intros Hfin Hrect Hk. apply Forall_forall. intros x Hx.
  destruct (column_in_entry m c k x Hrect Hk Hx) as [t Ht].
  unfold entry in Ht. destruct (m !! t) as [r |] eqn:Hr; [| done].
  simpl in Ht. unfold all_finite in Hfin. rewrite Forall_lookup in Hfin.
  specialize (Hfin t r Hr). rewrite Forall_lookup in Hfin. by eapply Hfin.
Qed.

Lemma amin0_finite (m : matrix) (c k : nat) (lo : vector) (a : float64) :
  all_finite m -> rectangular c m -> amin0 m = Ok lo -> lo !! k = Some a ->
  exists qa, a = Fin qa
    /\ (forall t x, entry m t k = Some x -> fle a x = true)
    /\ exists t, entry m t k = Some a.
Proof.
  intros Hfin Hrect Hlo Ha.
  destruct (reduce0_spec fmin m c lo Hrect Hlo) as (Hne & Hlen & Hk).
  assert (k < c) as Hkc by (rewrite <- Hlen; by eapply lookup_lt_Some).
  specialize (Hk k Hkc). rewrite Ha in Hk.
  pose proof (column_finite m c k Hfin Hrect Hkc) as Hcol.
  destruct (column m k) as [| x0 xs] eqn:Ecol; [done |].
  injection Hk as ->.
  apply Forall_cons in Hcol as [Hx0 Hxs].
  apply is_finite_Fin in Hx0 as [q0 ->].
  destruct (foldl_fmin_finite xs q0 Hxs) as (q' & -> & Hle & Hall & Hin).
  exists q'. split; [done |]. split.
  - intros t x Hx. apply entry_in_column in Hx. rewrite Ecol in Hx.
    apply elem_of_cons in Hx as [-> | Hx]; [by apply fle_Fin |].
    rewrite Forall_forall in Hall. by apply Hall.
  - apply (column_in_entry m c k); [done.. |]. by rewrite Ecol.
Qed.

Lemma amax0_finite (m : matrix) (c k : nat) (hi : vector) (b : float64) :
  all_finite m -> rectangular c m -> amax0 m = Ok hi -> hi !! k = Some b ->
  exists qb, b = Fin qb
    /\ (forall t x, entry m t k = Some x -> fle x b = true)
    /\ exists t, entry m t k = Some b.
Proof.
  intros Hfin Hrect Hhi Hb.
  destruct (reduce0_spec fmax m c hi Hrect Hhi) as (Hne & Hlen & Hk).
  assert (k < c) as Hkc by (rewrite <- Hlen; by eapply lookup_lt_Some).
  specialize (Hk k Hkc). rewrite Hb in Hk.
  pose proof (column_finite m c k Hfin Hrect Hkc) as Hcol.
  destruct (column m k) as [| x0 xs] eqn:Ecol; [done |].
  injection Hk as ->.
  apply Forall_cons in Hcol as [Hx0 Hxs].
  apply is_finite_Fin in Hx0 as [q0 ->].
  destruct (foldl_fmax_finite xs q0 Hxs) as (q' & -> & Hle & Hall & Hin).
  exists q'. split; [done |]. split.
  - intros t x Hx. apply entry_in_column in Hx. rewrite Ecol in Hx.
    apply elem_of_cons in Hx as [-> | Hx]; [by apply fle_Fin |].
    rewrite Forall_forall in Hall. by apply Hall.
  - apply (column_in_entry m c k); [done.. |]. by rewrite Ecol.
Qed.

(** ** Rescaling to 0-1 *)

Lemma normalize_eq (m : matrix) (c : nat) (lo hi : vector) :
  rectangular c m -> amin0 m = Ok lo -> amax0 m = Ok hi ->
  normalize m
  = Ok (map (fun r => zip_with fdiv (zip_with fsub r lo) (zip_with fsub hi lo)) m).
Proof.
  intros Hrect Hlo Hhi.
  destruct (reduce0_spec fmin m c lo Hrect Hlo) as (Hne & Hllo & _).
  destruct (reduce0_spec fmax m c hi Hrect Hhi) as (_ & Hlhi & _).
  unfold normalize. rewrite Hlo, Hhi. simpl.
  rewrite (binop_row fsub m lo c) by done. simpl.
  rewrite vec_binop_same by congruence. simpl.
  rewrite (binop_row fdiv _ _ c).
  - by rewrite map_map.
  - by destruct m.
  - unfold rectangular. apply Forall_fmap. eapply Forall_impl; [exact Hrect |].
    simpl. intros r Hr. rewrite length_zip_with. lia.
  - rewrite length_zip_with. lia.
Qed.

Lemma normalize_entry (m : matrix) (lo hi : vector) (t k : nat) (x a b : float64) :
  entry m t k = Some x -> lo !! k = Some a -> hi !! k = Some b ->
  entry (map (fun r => zip_with fdiv (zip_with fsub r lo) (zip_with fsub hi lo)) m)
        t k
  = Some (fdiv (fsub x a) (fsub b a)).
Proof.
  unfold entry. intros Hx Ha Hb. rewrite list_lookup_fmap.
  destruct (m !! t) as [r |]; simpl in *; [| done].
  rewrite !lookup_zip_with, Hx, Ha, Hb. done.
Qed.

Lemma rescale_unit (a x b : Q) :
  (a <= x)%Q -> (x <= b)%Q -> (a < b)%Q ->
  exists d y,
    fsub (Fin b) (Fin a) = Fin d /\ (0 < d)%Q
    /\ fdiv (fsub (Fin x) (Fin a)) (fsub (Fin b) (Fin a)) = Fin y
    /\ (0 <= y)%Q /\ (y <= 1)%Q
    /\ ((x <= a)%Q -> y = 0%Q)
    /\ ((b <= x)%Q -> y = 1%Q).
Proof.
  intros Hax Hxb Hab.
  assert (Hd : (0 < Qred (b - a))%Q) by (rewrite Qred_correct; lra).
  assert (Hnz : Qeq_bool (Qred (b - a)) 0 = false).
  { destruct (Qeq_bool (Qred (b - a)) 0) eqn:E; [| done].
    apply Qeq_bool_iff in E. rewrite E in Hd. by apply Qlt_irrefl in Hd. }
  exists (Qred (b - a)), (Qred (Qred (x - a) / Qred (b - a))).
  split; [done |]. split; [done |]. split; [simpl; by rewrite Hnz |].
  split; [| split; [| split]].
  - rewrite Qred_correct. apply Qle_shift_div_l; [done |].
    rewrite !Qred_correct. lra.
  - rewrite Qred_correct. apply Qle_shift_div_r; [done |].
    rewrite !Qred_correct. lra.
  - intros Hxa. change 0%Q with (Qred 0). apply Qred_complete.
    assert (Qred (x - a) == 0)%Q as -> by (rewrite Qred_correct; lra).
    unfold Qdiv. ring.
  - intros Hbx. change 1%Q with (Qred 1). apply Qred_complete.
    assert (Qred (x - a) == Qred (b - a))%Q as ->
      by (rewrite !Qred_correct; lra).
    apply Qmult_inv_r. intros E. rewrite E in Hd. by apply Qlt_irrefl in Hd.
Qed.

Lemma rescale_constant (a x b : Q) :
  (a <= x)%Q -> (x <= b)%Q -> ~ (a < b)%Q ->
  fdiv (fsub (Fin x) (Fin a)) (fsub (Fin b) (Fin a)) = NaN.
Proof.
  intros Hax Hxb Hab. apply Qnot_lt_le in Hab.
  assert (Qred (b - a) = 0%Q) as Hd.
  { change 0%Q with (Qred 0). apply Qred_complete. lra. }
  assert (Qred (x - a) = 0%Q) as Hn.
  { change 0%Q with (Qred 0). apply Qred_complete. lra. }
  simpl. by rewrite Hd, Hn.
Qed.

(** C8, as stated, fails on a matrix with an infinite entry: the column
    [0, +inf] has a maximum strictly greater than its minimum, and its
    maximum is sent to [inf / inf = NaN]. *)
Lemma normalize_infinite_entry :
  let m : matrix := [[Fin 0]; [PInf]] in
  strict_range m [Fin 0] [PInf]
  /\ normalize m = Ok [[Fin 0]; [NaN]]
  /\ ~ normalize_rescales m.
Proof.
  intros m.
  assert (Hrange : strict_range m [Fin 0] [PInf]).
  { split; [reflexivity |]. split; [reflexivity |]. by repeat constructor. }
  split; [exact Hrange |]. split; [reflexivity |].
  intros Hclaim. destruct (Hclaim _ _ Hrange) as (n & Hn & _ & Hent).
  injection Hn as <-.
  destruct (Hent 1 0 PInf (Fin 0) PInf eq_refl eq_refl eq_refl)
    as (y & Hy & Hunit & _).
  injection Hy as <-. exact Hunit.
Qed.

(** C8 (amended).  On a matrix of finite entries with at least one row,
    [normalize] returns a matrix of the same shape.  In a column whose
    maximum is strictly greater than its minimum the divisor is a positive
    number and every entry of the result lies in [[0, 1]], the column's
    minimum being sent to 0 and its maximum to 1; in a constant column the
    division is [0 / 0] and every entry of the result is [NaN].  The
    minimum and maximum are entries of the column and bound it.  So when
    every column's maximum is strictly greater than its minimum, the result
    is a 0-1 rescaling. *)
Theorem normalize_finite_matrix :
  forall (m : matrix) (c : nat) (lo hi : vector),
    all_finite m -> rectangular c m ->
    amin0 m = Ok lo -> amax0 m = Ok hi ->
    exists n, normalize m = Ok n
      /\ shape n = shape m
      /\ (forall k a b, lo !! k = Some a -> hi !! k = Some b ->
            (exists t, entry m t k = Some a)
            /\ (exists t, entry m t k = Some b)
            /\ (forall t x, entry m t k = Some x ->
                  fle a x = true /\ fle x b = true)
            /\ (flt a b = true ->
                  (exists d, fsub b a = Fin d /\ (0 < d)%Q)
                  /\ forall t x, entry m t k = Some x ->
                       exists y, entry n t k = Some y /\ rescaled_entry x a b y)
            /\ (flt a b = false ->
                  forall t x, entry m t k = Some x -> entry n t k = Some NaN))
      /\ (Forall2 (fun a b => flt a b = true) lo hi -> unit_rescaling m n lo hi).
Proof.
  intros m c lo hi Hfin Hrect Hlo Hhi.
  destruct (reduce0_spec fmin m c lo Hrect Hlo) as (Hne & Hllo & _).
  destruct (reduce0_spec fmax m c hi Hrect Hhi) as (_ & Hlhi & _).
  set (n := map (fun r => zip_with fdiv (zip_with fsub r lo) (zip_with fsub hi lo)) m).
  assert (Hshape : shape n = shape m).
  { unfold shape, nrows, ncols, n. rewrite length_map. f_equal.
    destruct m as [| r m']; [done |]. simpl.
    apply Forall_cons in Hrect as [Hr _]. rewrite !length_zip_with. lia. }
  assert (Hcol : forall k a b, lo !! k = Some a -> hi !! k = Some b ->
            (exists t, entry m t k = Some a)
            /\ (exists t, entry m t k = Some b)
            /\ (forall t x, entry m t k = Some x ->
                  fle a x = true /\ fle x b = true)
            /\ (flt a b = true ->
                  (exists d, fsub b a = Fin d /\ (0 < d)%Q)
                  /\ forall t x, entry m t k = Some x ->
                       exists y, entry n t k = Some y /\ rescaled_entry x a b y)
            /\ (flt a b = false ->
                  forall t x, entry m t k = Some x -> entry n t k = Some NaN)).
  { intros k a b Ha Hb.
    destruct (amin0_finite m c k lo a Hfin Hrect Hlo Ha) as (qa & -> & Hmin & Hamin).
    destruct (amax0_finite m c k hi b Hfin Hrect Hhi Hb) as (qb & -> & Hmax & Hamax).
    split; [done |]. split; [done |].
    split; [intros t x Hx; split; [by eapply Hmin | by eapply Hmax] |].
    assert (Hx : forall t x, entry m t k = Some x ->
              exists qx, x = Fin qx /\ (qa <= qx)%Q /\ (qx <= qb)%Q).
    { intros t x Hx. pose proof (Hmin t x Hx) as H1. pose proof (Hmax t x Hx) as H2.
      destruct x as [qx | | |]; try done. exists qx.
      split; [done |]. split; by apply fle_Fin. }
    split.
    - intros Hlt. apply flt_Fin in Hlt. split.
      + destruct Hamin as [t Ht]. destruct (Hx t _ Ht) as (qx & _ & H1 & H2).
        destruct (rescale_unit qa qx qb H1 H2 Hlt) as (d & y & Hd & Hpos & _).
        by exists d.
      + intros t x Hent. destruct (Hx t x Hent) as (qx & -> & H1 & H2).
        destruct (rescale_unit qa qx qb H1 H2 Hlt)
          as (d & y & Hd & Hpos & Hy & Hy0 & Hy1 & Hmin0 & Hmax1).
        exists (Fin y). split.
        * unfold n. rewrite (normalize_entry m lo hi t k (Fin qx) (Fin qa) (Fin qb))
            by done. by rewrite Hy.
        * split; [done |]. split.
          -- intros H. apply fle_Fin in H. by rewrite Hmin0.
          -- intros H. apply fle_Fin in H. by rewrite Hmax1.
    - intros Hnlt t x Hent. destruct (Hx t x Hent) as (qx & -> & H1 & H2).
      unfold n. rewrite (normalize_entry m lo hi t k (Fin qx) (Fin qa) (Fin qb))
        by done.
      f_equal. apply rescale_constant; [done.. |].
      intros H. apply flt_Fin in H. congruence. }
  exists n. split; [by apply (normalize_eq m c) |]. split; [done |].
  split; [exact Hcol |].
  intros Hstrict. split; [done |].
  intros t k x a b Hent Ha Hb.
  destruct (Hcol k a b Ha Hb) as (_ & _ & _ & Hs & _).
  apply Hs; [| done].
  by destruct (Forall2_lookup_lr _ _ _ _ _ _ Hstrict Ha Hb).
Qed.

Lemma normalize_finite_matrix_witness :
  let m : matrix := [[Fin 0; Fin 2; Fin 7]; [Fin 1; Fin 4; Fin 7]; [Fin (1 # 2); Fin 3; Fin 7]] in
  exists n, normalize m = Ok n
    /\ entry n 2 0 = Some (Fin (1 # 2))
    /\ entry n 0 2 = Some NaN.
Proof.
  intros m.
  destruct (normalize_finite_matrix m 3 [Fin 0; Fin 2; Fin 7] [Fin 1; Fin 4; Fin 7])
    as (n & Hn & _ & _ & _).
  - unfold all_finite. repeat constructor.
  - unfold rectangular. repeat constructor.
  - reflexivity.
  - reflexivity.
  - exists n. split; [exact Hn |].
    assert (n = [[Fin 0; Fin 0; NaN]; [Fin 1; Fin 1; NaN];
                 [Fin (1 # 2); Fin (1 # 2); NaN]]) as ->
      by (vm_compute in Hn; congruence).
    split; reflexivity.
Defined.

(** ** Arrays entry by entry *)

Lemma map_at_index {B} (g : float64 -> B) (l : vector) :
  map g l = map (fun i => g (at_index l i)) (seq 0 (length l)).
Proof.
  apply list_eq. intros i. rewrite !list_lookup_fmap.
  destruct (decide (i < length l)) as [Hlt | Hge].
  - rewrite lookup_seq_lt by done. simpl. unfold at_index.
    by destruct (lookup_lt_is_Some_2 l i Hlt) as [x ->].
  - rewrite lookup_seq_ge by lia. by rewrite lookup_ge_None_2 by lia.
Qed.

Lemma entry_get (m : matrix) (T c t k : nat) :
  length m = T -> rectangular c m -> t < T -> k < c ->
  entry m t k = Some (get m t k).
Proof.
  intros Hlen Hrect Ht Hk. unfold get, entry.
  destruct (lookup_lt_is_Some_2 m t) as [r Hr]; [lia |]. rewrite Hr. simpl.
  unfold rectangular in Hrect. rewrite Forall_lookup in Hrect.
  destruct (lookup_lt_is_Some_2 r k) as [x Hx]; [by rewrite (Hrect t r Hr) |].
  by rewrite Hx.
Qed.

Lemma matrix_eq_tabulate (m : matrix) (T c : nat) (g : nat -> nat -> float64) :
  length m = T -> rectangular c m ->
  (forall t k, t < T -> k < c -> entry m t k = Some (g t k)) ->
  m = tabulate T c g.
Proof.
  intros Hlen Hrect Hent. unfold tabulate. apply list_eq. intros t.
  rewrite list_lookup_fmap.
  destruct (decide (t < T)) as [Ht | Ht].
  - rewrite lookup_seq_lt by done. simpl.
    destruct (lookup_lt_is_Some_2 m t) as [r Hr]; [lia |]. rewrite Hr. f_equal.
    unfold rectangular in Hrect. rewrite Forall_lookup in Hrect.
    pose proof (Hrect t r Hr) as Hlr.
    apply list_eq. intros k. rewrite list_lookup_fmap.
    destruct (decide (k < c)) as [Hk | Hk].
    + rewrite lookup_seq_lt by done. simpl.
      specialize (Hent t k Ht Hk). unfold entry in Hent.
      by rewrite Hr in Hent.
    + rewrite lookup_seq_ge by lia. by rewrite lookup_ge_None_2 by lia.
  - rewrite lookup_seq_ge by lia. by rewrite lookup_ge_None_2 by lia.
Qed.

Lemma entry_zip_with f (a b : matrix) (t k : nat) (x y : float64) :
  entry a t k = Some x -> entry b t k = Some y ->
  entry (zip_with (zip_with f) a b) t k = Some (f x y).
Proof.
  unfold entry. intros Ha Hb. rewrite lookup_zip_with.
  destruct (a !! t) as [ra |]; [| done]. destruct (b !! t) as [rb |]; [| done].
  simpl in *. by rewrite lookup_zip_with, Ha, Hb.
Qed.

Lemma entry_map_matrix f (a : matrix) (t k : nat) (x : float64) :
  entry a t k = Some x -> entry (map_matrix f a) t k = Some (f x).
Proof.
  unfold entry, map_matrix. intros Ha. rewrite list_lookup_fmap.
  destruct (a !! t) as [ra |]; [| done]. simpl in *.
  by rewrite list_lookup_fmap, Ha.
Qed.

Lemma rectangular_zip_with f (a b : matrix) (c : nat) :
  rectangular c a -> rectangular c b ->
  rectangular c (zip_with (zip_with f) a b).
Proof.
  unfold rectangular. rewrite !Forall_lookup. intros Ha Hb t r Hr.
  apply lookup_zip_with_Some in Hr as (ra & rb & -> & Hra & Hrb).
  rewrite length_zip_with, (Ha t ra), (Hb t rb) by done. lia.
Qed.

Lemma rectangular_map_matrix f (a : matrix) (c : nat) :
  rectangular c a -> rectangular c (map_matrix f a).
Proof.
  unfold rectangular, map_matrix. intros Ha. apply Forall_fmap.
  eapply Forall_impl; [exact Ha |]. simpl. intros r Hr. by rewrite length_map.
Qed.

Lemma map_as_bind {A B} (h : A -> B) (ks : list A) :
  map h ks = ks ≫= fun k => [h k].
Proof. induction ks as [| k ks IH]; simpl; [done | by rewrite IH]. Qed.

Lemma msum_tabulate (T c : nat) (g : nat -> nat -> float64) :
  msum (tabulate T c g) = sum_over T c g.
Proof.
  unfold msum, sum_over, tabulate. f_equal.
  induction (seq 0 T) as [| t ts IH]; simpl; [done |].
  by rewrite IH, map_as_bind.
Qed.

Lemma column_of_entries (m : matrix) (T c k : nat) (col : vector) :
  length m = T -> rectangular c m -> k < c -> length col = T ->
  (forall t, entry m t k = col !! t) ->
  column m k = col.
Proof.
  intros Hlen Hrect Hk Hcol Hent. unfold column. apply list_eq. intros t.
  rewrite list_lookup_fmap, <- Hent. unfold entry, at_index.
  destruct (m !! t) as [r |] eqn:Hr; simpl; [| done].
  unfold rectangular in Hrect. rewrite Forall_lookup in Hrect.
  by destruct (lookup_lt_is_Some_2 r k) as [x ->]; [rewrite (Hrect t r Hr) |].
Qed.

(** ** The likelihood and the prior *)

Lemma rbind_ok {A B} (a : A) (f : A -> result B) : rbind (Ok a) f = f a.
Proof. reflexivity. Qed.

Section Penalties.

Context (ydata_norm exp_var : matrix) (log10 : float64 -> float64)
        (model : Model).

(** The columns [extract_records] returns, for use in the proofs below. *)
Lemma extract_records_entries :
  forall (n : nat) (r : recarray) (names : list string),
    names <> [] ->
    records n r ->
    Forall (fun name => is_ok (field r name) = true) names ->
    exists m, extract_records r names = Ok m
      /\ length m = n
      /\ rectangular (length names) m
      /\ forall t k name col,
           names !! k = Some name -> field r name = Ok col ->
           entry m t k = col !! t.
Proof.
  intros n r names Hne Hrec Hall.
  assert (Hcols : exists cols, Forall2 (fun x y => field r x = Ok y) names cols).
  { clear Hne. induction names as [| x names IH].
    - exists []. constructor.
    - apply Forall_cons in Hall as [Hx Hall].
      destruct (IH Hall) as [cols Hcols].
      destruct (field r x) as [col |] eqn:Hf; [| done].
      exists (col :: cols). by constructor. }
  destruct Hcols as [cols Hcols].
  assert (Hlen : length cols = length names)
    by (symmetry; by eapply Forall2_length).
  assert (Hrect : rectangular n cols).
  { unfold rectangular. apply Forall_forall. intros col Hcol.
    apply list_elem_of_lookup_1 in Hcol as [k Hk].
    destruct (Forall2_lookup_r _ _ _ _ _ Hcols Hk) as (name & _ & Hf).
    by eapply field_records. }
  assert (Hcne : cols <> []) by (intros ->; by destruct names).
  unfold extract_records.
  apply map_result_Forall2 in Hcols as Hmap. rewrite Hmap. simpl.
  rewrite (vstack_ok n) by done. simpl.
  destruct (transpose_shape n cols Hcne Hrect) as [Hrows Hcolsn].
  exists (transpose cols). split; [done |]. split; [done |].
  split; [by rewrite <- Hlen |].
  intros t k name col Hk Hf.
  rewrite (transpose_entry n) by done.
  destruct (Forall2_lookup_l _ _ _ _ _ Hcols Hk) as (col' & Hcol' & Hf').
  unfold entry. rewrite Hcol'. simpl. congruence.
Qed.

Lemma normalized_trajectories (ysim : recarray) (T : nat) (cols : list vector) :
  0 < T -> records T ysim ->
  Forall2 (fun name col => field ysim name = Ok col) obs_names cols ->
  exists E n, extract_records ysim obs_names = Ok E /\ normalize E = Ok n
    /\ length n = T /\ rectangular 3 n
    /\ forall t k, t < T -> k < 3 ->
         entry n t k
         = Some (rescale (default [] (cols !! k))
                         (at_index (default [] (cols !! k)) t)).
Proof.
  intros HT Hrec Hcols.
  destruct (extract_records_entries T ysim obs_names) as (E & HE & HlenE & HrectE & HentE);
    [done | done | |].
  { apply Forall_forall. intros name Hname.
    apply list_elem_of_lookup_1 in Hname as [k Hk].
    destruct (Forall2_lookup_l _ _ _ _ _ Hcols Hk) as (col & _ & ->). done. }
  change (length obs_names) with 3 in HrectE.
  exists E.
  destruct (amin0 E) as [lo | e] eqn:Hlo;
    [| destruct E; [simpl in HlenE; lia | discriminate]].
  destruct (amax0 E) as [hi | e] eqn:Hhi;
    [| destruct E; [simpl in HlenE; lia | discriminate]].
  rewrite (normalize_eq E 3 lo hi) by done.
  eexists. split; [done |]. split; [reflexivity |].
  split; [by rewrite length_map |]. split.
  { unfold rectangular. apply Forall_fmap. eapply Forall_impl; [exact HrectE |].
    simpl. intros r Hr.
    destruct (reduce0_spec fmin E 3 lo HrectE Hlo) as (_ & Hllo & _).
    destruct (reduce0_spec fmax E 3 hi HrectE Hhi) as (_ & Hlhi & _).
    rewrite !length_zip_with. lia. }
  intros t k Ht Hk.
  assert (Hcol : exists name col, obs_names !! k = Some name
            /\ cols !! k = Some col /\ field ysim name = Ok col).
  { destruct (lookup_lt_is_Some_2 obs_names k) as [name Hname]; [simpl; lia |].
    destruct (Forall2_lookup_l _ _ _ _ _ Hcols Hname) as (col & Hc & Hf).
    by exists name, col. }
  destruct Hcol as (name & col & Hname & Hc & Hf). rewrite Hc. simpl.
  assert (Hlcol : length col = T) by (by eapply field_records).
  assert (Hcolumn : column E k = col).
  { apply (column_of_entries E T 3); [done.. |].
    intros t'. by apply (HentE t' k name col). }
  destruct (reduce0_spec fmin E 3 lo HrectE Hlo) as (_ & _ & Hmin).
  destruct (reduce0_spec fmax E 3 hi HrectE Hhi) as (_ & _ & Hmax).
  specialize (Hmin k Hk). specialize (Hmax k Hk). rewrite Hcolumn in Hmin, Hmax.
  destruct (lookup_lt_is_Some_2 col t) as [x Hx]; [lia |].
  rewrite (normalize_entry E lo hi t k x (minimum col) (maximum col)).
  - unfold rescale, at_index. by rewrite Hx.
  - by rewrite (HentE t k name col).
  - rewrite Hmin. destruct col; [simpl in Hlcol; lia | done].
  - rewrite Hmax. destruct col; [simpl in Hlcol; lia | done].
Qed.

(** C1.  Let the solver succeed at the position and return a record array
    of [T >= 1] records with the three observables, and let the data and
    its standard deviations be [T] by 3 arrays.  Then [likelihood] makes
    that one solver call and returns the sum, over the time points and the
    three observables 'obsAKTPP', 'obsErbB1_ErbB_P_CE', 'obsERKPP' in this
    order, of [(ydata_norm - ysim_norm)^2 / (2 * exp_var^2)], where
    [ysim_norm] is the observable's trajectory rescaled by its own minimum
    and maximum; [ydata_norm] and [exp_var] are the arrays loaded once from
    disk and do not depend on the position. *)
Theorem likelihood_is_gaussian_penalty :
  forall (mcmc : MCMC) (position : vector) (ysim : recarray) (T : nat)
         (y0 y1 y2 : vector),
    simulate_fn mcmc (Some position) true = Ok ysim ->
    0 < T -> records T ysim ->
    field ysim "obsAKTPP" = Ok y0 ->
    field ysim "obsErbB1_ErbB_P_CE" = Ok y1 ->
    field ysim "obsERKPP" = Ok y2 ->
    length ydata_norm = T -> rectangular 3 ydata_norm ->
    length exp_var = T -> rectangular 3 exp_var ->
    obs_names = ["obsAKTPP"; "obsErbB1_ErbB_P_CE"; "obsERKPP"]%string
    /\ likelihood ydata_norm exp_var mcmc position
       = ([EvSimulate (Some position) true],
          Ok (sum_over T 3 (fun t k =>
                let trajectory := default [] ([y0; y1; y2] !! k) in
                gaussian_term (get ydata_norm t k)
                              (rescale trajectory (at_index trajectory t))
                              (get exp_var t k)))).
Proof.
  intros mcmc position ysim T y0 y1 y2 Hsim HT Hrec H0 H1 H2 Hld Hrd Hle Hre.
  split; [reflexivity |].
  rewrite likelihood_unfold, Hsim. unfold solver_call. f_equal.
  destruct (normalized_trajectories ysim T [y0; y1; y2] HT Hrec)
    as (E & n & HE & Hn & Hln & Hrn & Hen).
  { by repeat constructor. }
  rewrite rbind_ok, HE, rbind_ok, Hn, rbind_ok.
  rewrite (binop_same fsub ydata_norm n 3) by (done || congruence).
  rewrite rbind_ok, (binop_same fdiv _ _ 3).
  - rewrite rbind_ok. f_equal. rewrite <- msum_tabulate. f_equal.
    apply matrix_eq_tabulate.
    + rewrite length_zip_with. unfold map_matrix.
      rewrite !length_map, length_zip_with. lia.
    + apply rectangular_zip_with; repeat apply rectangular_map_matrix; [| done].
      by apply rectangular_zip_with.
    + intros t k Ht Hk. unfold gaussian_term.
      apply entry_zip_with.
      * apply entry_map_matrix, entry_zip_with; [| by apply Hen].
        by apply (entry_get _ T 3).
      * do 2 apply entry_map_matrix. by apply (entry_get _ T 3).
  - unfold map_matrix. rewrite !length_map, length_zip_with. lia.
  - apply rectangular_map_matrix. by apply rectangular_zip_with.
  - by repeat apply rectangular_map_matrix.
Qed.

Lemma prior_term_finite (x mu : Q) :
  exists q, prior_term (Fin x) (Fin mu) prior_var = Fin q
    /\ (q == (x - mu) * (x - mu) / 12)%Q.
Proof.
  eexists. split; [reflexivity |].
  rewrite !Qred_correct. reflexivity.
Qed.

(** C2.  The sampler is given [prior] as its prior callback, with the prior
    mean the list of [log10] of the nominal value of each estimated
    parameter and [prior_var = 6.0].  At a position with one coordinate per
    estimated parameter it returns the sum over the parameters of
    [(position - prior_mean)^2 / (2 * prior_var)]; on finite numbers each
    term is the squared deviation divided by 12, the penalty of a Gaussian
    of variance 6 in log10 space. *)
Theorem prior_is_log10_gaussian_penalty :
  forall (mcmc : MCMC) (position : vector),
    length position = length (parameters_rules model) ->
    let estimate_params := parameters_rules model in
    let mean := prior_mean log10 estimate_params in
    prior_var = Fin 6
    /\ (exists opts : MCMCOpts,
          script_opts ydata_norm exp_var log10 model scenario = Ok opts
          /\ opts !! "estimate_params" = Some (OParams estimate_params)
          /\ opts !! "prior_fn" = Some (OPrior (prior mean)))
    /\ (forall i p, estimate_params !! i = Some p ->
          mean !! i = Some (log10 (Fin (p_value p))))
    /\ prior mean mcmc position
       = Ok (sum_upto (length position) (fun i =>
               prior_term (at_index position i) (at_index mean i) prior_var))
    /\ (forall x mu : Q,
          exists q, prior_term (Fin x) (Fin mu) prior_var = Fin q
            /\ (q == (x - mu) * (x - mu) / 12)%Q).
Proof.
  intros mcmc position Hlen estimate_params mean.
  split; [reflexivity |]. split.
  { exists (default_opts ydata_norm exp_var log10 model).
    split; [apply script_opts_default |]. by split. }
  split.
  { intros i p Hp. unfold mean, prior_mean.
    by rewrite list_lookup_fmap, Hp. }
  split; [| apply prior_term_finite].
  assert (Hmean : length mean = length position).
  { unfold mean, prior_mean. by rewrite length_map. }
  unfold prior. rewrite vec_binop_same by done. rewrite rbind_ok.
  f_equal. unfold sum_upto. f_equal. rewrite map_map.
  apply list_eq. intros i. rewrite !list_lookup_fmap, lookup_zip_with.
  destruct (decide (i < length position)) as [Hi | Hi].
  - rewrite lookup_seq_lt by done. unfold at_index. simpl.
    destruct (lookup_lt_is_Some_2 position i Hi) as [x Hx].
    destruct (lookup_lt_is_Some_2 mean i) as [mu Hmu]; [lia |].
    by rewrite Hx, Hmu.
  - rewrite lookup_seq_ge by lia.
    assert (position !! i = None) as -> by (apply lookup_ge_None_2; lia).
    done.
Qed.

End Penalties.

Lemma likelihood_is_gaussian_penalty_witness :
  likelihood toy_data toy_sd toy_mcmc [Fin 0]
  = ([EvSimulate (Some [Fin 0]) true], Ok (Fin 2)).
Proof.
  destruct (likelihood_is_gaussian_penalty toy_data toy_sd toy_mcmc [Fin 0]
              toy_trajectories 2 [Fin 0; Fin 1] [Fin 2; Fin 4] [Fin 5; Fin 3])
    as [_ ->].
  - reflexivity.
  - lia.
  - unfold records. repeat constructor.
  - reflexivity.
  - reflexivity.
  - reflexivity.
  - reflexivity.
  - unfold rectangular. repeat constructor.
  - reflexivity.
  - unfold rectangular. repeat constructor.
  - vm_compute. reflexivity.
Defined.

Lemma prior_is_log10_gaussian_penalty_witness :
  let position := replicate (length (parameters_rules receptor_model)) (Fin 1) in
  prior (prior_mean (fun x => x) (parameters_rules receptor_model))
        toy_mcmc position
  = Ok (sum_upto (length position) (fun i =>
          prior_term (at_index position i)
            (at_index (prior_mean (fun x => x) (parameters_rules receptor_model)) i)
            prior_var)).
Proof.
  intros position.
  destruct (prior_is_log10_gaussian_penalty toy_data toy_sd (fun x => x)
              receptor_model toy_mcmc position)
    as (_ & _ & _ & H & _).
  - unfold position. by rewrite length_replicate.
  - exact H.
Defined.

(* ===================================================================== *)
(** * Further properties *)
(* ===================================================================== *)

Import ChenMapk Checks.

(** ** Errors and edge cases of the array functions *)

Lemma field_error (r : recarray) (name : string) (e : exn) :
  field r name = Raise e -> e = ValueError.
Proof.
  induction r as [| [nm col] r IH]; simpl; [by intros [= <-] |].
  by destruct (String.eqb nm name).
Qed.

Lemma map_result_error {A B} (f : A -> result B) (xs : list A) (x : A) :
  x ∈ xs -> is_ok (f x) = false ->
  exists x' e, x' ∈ xs /\ f x' = Raise e /\ map_result f xs = Raise e.
Proof.
  induction xs as [| y xs IH]; [by intros ?%elem_of_nil |].
  intros Hx Hfx. simpl.
  destruct (f y) as [b | e] eqn:Hfy; simpl.
  - apply elem_of_cons in Hx as [-> | Hx]; [by rewrite Hfy in Hfx |].
    destruct (IH Hx Hfx) as (x' & e & Hx' & He & ->).
    exists x', e. split; [by right | done].
  - exists y, e. split; [left | done].
Qed.

Lemma extract_records_raises (r : recarray) (names : list string) (name : string) :
  name ∈ names -> is_ok (field r name) = false ->
  extract_records r names = Raise ValueError.
Proof.
  intros Hin Hmiss. unfold extract_records.
  destruct (map_result_error (field r) names name Hin Hmiss)
    as (x & e & _ & He & ->).
  apply field_error in He as ->. done.
Qed.

(** X1.  When some requested name is not a field of the record array,
    [extract_records] raises [ValueError], whatever the other names are. *)
Theorem extract_records_missing_field :
  forall (r : recarray) (names : list string) (name : string),
    name ∈ names -> is_ok (field r name) = false ->
    extract_records r names = Raise ValueError.
Proof.
  intros r names name Hin Hmiss. unfold extract_records.
  destruct (map_result (field r) names) as [cols | e] eqn:Hmap.
  - apply map_result_Forall2 in Hmap.
    apply list_elem_of_lookup_1 in Hin as [k Hk].
    destruct (Forall2_lookup_l _ _ _ _ _ Hmap Hk) as (col & _ & Hcol).
    by rewrite Hcol in Hmiss.
  - destruct (map_result_error (field r) names name Hin Hmiss)
      as (x & e' & _ & He & Hmap').
    rewrite Hmap in Hmap'. injection Hmap' as ->.
    by apply field_error in He as ->.
Qed.

Lemma extract_records_missing_field_witness :
  extract_records toy_trajectories ["obsAKTPP"; "obsMissing"; "obsERKPP"]%string
  = Raise ValueError.
Proof.
  apply (extract_records_missing_field _ _ "obsMissing"%string).
  - set_solver.
  - reflexivity.
Defined.

Lemma reduce0_ok f (m : matrix) : m <> [] -> exists v, reduce0 f m = Ok v.
Proof. destruct m as [| r rest]; [done |]. intros _. by eexists. Qed.

(** X2.  On a rectangular matrix [normalize] fails exactly when there is no
    row, and then with [ValueError]; otherwise it returns a matrix of the
    same shape, whatever the entries are. *)
Theorem normalize_fails_only_without_rows :
  forall (m : matrix) (c : nat),
    rectangular c m ->
    (m = [] -> normalize m = Raise ValueError)
    /\ (m <> [] -> exists n, normalize m = Ok n /\ shape n = shape m
                              /\ rectangular c n).
Proof.
  intros m c Hrect. split; [by intros -> |]. intros Hne.
  destruct (reduce0_ok fmin m Hne) as [lo Hlo].
  destruct (reduce0_ok fmax m Hne) as [hi Hhi].
  destruct (reduce0_spec fmin m c lo Hrect Hlo) as (_ & Hllo & _).
  destruct (reduce0_spec fmax m c hi Hrect Hhi) as (_ & Hlhi & _).
  eexists. split; [by apply (normalize_eq m c lo hi) |].
  assert (Hrows : rectangular c
            (map (fun r => zip_with fdiv (zip_with fsub r lo) (zip_with fsub hi lo)) m)).
  { unfold rectangular. apply Forall_fmap. eapply Forall_impl; [exact Hrect |].
    simpl. intros r Hr. rewrite !length_zip_with. lia. }
  split; [| done].
  unfold shape, nrows. rewrite length_map. f_equal.
  rewrite (ncols_rectangular c) by (done || by destruct m).
  by rewrite (ncols_rectangular c m).
Qed.

Lemma normalize_fails_only_without_rows_witness :
  exists n, normalize [[Fin 3; NaN]; [PInf; Fin 1]] = Ok n
            /\ shape n = (2, 2).
Proof.
  destruct (normalize_fails_only_without_rows [[Fin 3; NaN]; [PInf; Fin 1]] 2)
    as [_ H].
  - unfold rectangular. repeat constructor.
  - destruct H as (n & Hn & Hs & _); [done |]. by exists n.
Defined.

Lemma fdiv_self_difference (x : float64) : fdiv (fsub x x) (fsub x x) = NaN.
Proof.
  destruct x as [q | | |]; try done. simpl.
  assert (Qred (q - q) = 0%Q) as ->
    by (change 0%Q with (Qred 0); apply Qred_complete; ring).
  reflexivity.
Qed.

(** X3.  A matrix with a single row, that is a simulation with one time
    point, is rescaled to a row of [NaN], whatever its entries: every
    column is constant and the division is [0 / 0]. *)
Theorem normalize_single_row :
  forall row : vector, normalize [row] = Ok [map (fun _ => NaN) row].
Proof.
  intros row. rewrite (normalize_eq [row] (length row) row row).
  - simpl. do 2 f_equal.
    induction row as [| x row IH]; simpl; [done |].
    by rewrite fdiv_self_difference, IH.
  - by repeat constructor.
  - reflexivity.
  - reflexivity.
Qed.

Lemma rescale_scaled (q a b : Q) :
  (a == 0)%Q -> (b == 1)%Q ->
  fdiv (fsub (Fin q) (Fin a)) (fsub (Fin b) (Fin a)) = Fin (Qred q).
Proof.
  intros Ha Hb. simpl.
  assert (Qred (b - a) = 1%Q) as ->
    by (change 1%Q with (Qred 1); apply Qred_complete; rewrite Ha, Hb; ring).
  simpl. f_equal. apply Qred_complete. rewrite Qred_correct, Ha. field.
Qed.

(** X4.  Data that are already scaled to 0-1 are left as they are: when
    the entries are finite and every column has minimum 0 and maximum 1,
    [normalize] returns the same numbers. *)
Theorem normalize_already_scaled :
  forall (m : matrix) (c : nat) (lo hi : vector),
    all_finite m -> rectangular c m ->
    amin0 m = Ok lo -> amax0 m = Ok hi ->
    Forall (equals 0) lo -> Forall (equals 1) hi ->
    normalize m = Ok (map_matrix lowest_terms m).
Proof.
  intros m c lo hi Hfin Hrect Hlo Hhi H0 H1.
  destruct (reduce0_spec fmin m c lo Hrect Hlo) as (_ & Hllo & _).
  destruct (reduce0_spec fmax m c hi Hrect Hhi) as (_ & Hlhi & _).
  rewrite (normalize_eq m c lo hi) by done. f_equal.
  unfold map_matrix. apply Forall_fmap_ext_1.
  unfold all_finite, rectangular in *.
  rewrite Forall_forall in Hfin, Hrect. apply Forall_forall. intros r Hr.
  specialize (Hfin r Hr). specialize (Hrect r Hr).
  apply list_eq. intros k. rewrite !lookup_zip_with, list_lookup_fmap.
  destruct (r !! k) as [x |] eqn:Hx; simpl; [| done].
  rewrite Forall_lookup in Hfin. pose proof (Hfin k x Hx) as Hq.
  apply is_finite_Fin in Hq as [q ->].
  assert (k < c) as Hk by (rewrite <- Hrect; by eapply lookup_lt_Some).
  destruct (lookup_lt_is_Some_2 lo k) as [a Ha]; [lia |].
  destruct (lookup_lt_is_Some_2 hi k) as [b Hb]; [lia |].
  rewrite Ha, Hb. simpl.
  rewrite Forall_lookup in H0, H1.
  pose proof (H0 k a Ha) as Ha0. pose proof (H1 k b Hb) as Hb1.
  destruct a as [qa | | |]; try done. destruct b as [qb | | |]; try done.
  f_equal. by apply rescale_scaled.
Qed.

Lemma normalize_already_scaled_witness :
  normalize [[Fin 0; Fin 1]; [Fin (2 # 4); Fin 0]; [Fin 1; Fin (1 # 3)]]
  = Ok [[Fin 0; Fin 1]; [Fin (1 # 2); Fin 0]; [Fin 1; Fin (1 # 3)]].
Proof.
  refine (normalize_already_scaled
            [[Fin 0; Fin 1]; [Fin (2 # 4); Fin 0]; [Fin 1; Fin (1 # 3)]]
            2 [Fin 0; Fin 0] [Fin 1; Fin 1] _ _ _ _ _ _).
  - unfold all_finite. repeat constructor.
  - unfold rectangular. repeat constructor.
  - reflexivity.
  - reflexivity.
  - repeat constructor.
  - repeat constructor.
Defined.

(** ** The sign of the penalties *)

Lemma Qsquare_nonneg (d : Q) : (0 <= d * d)%Q.
Proof.
  destruct (Qlt_le_dec d 0) as [Hneg | Hpos].
  - assert (d * d == (- d) * (- d))%Q as -> by ring.
    apply Qmult_le_0_compat; lra.
  - by apply Qmult_le_0_compat.
Qed.

Lemma penalty_term_finite (y s den : Q) :
  (0 < den)%Q ->
  exists q, fdiv (fsquare (fsub (Fin y) (Fin s))) (Fin den) = Fin q
    /\ (0 <= q)%Q /\ ((y == s)%Q -> q = 0%Q).
Proof.
  intros Hden. simpl.
  assert (Qeq_bool den 0 = false) as ->.
  { destruct (Qeq_bool den 0) eqn:E; [| done].
    apply Qeq_bool_iff in E. rewrite E in Hden. by apply Qlt_irrefl in Hden. }
  eexists. split; [reflexivity |]. split.
  - rewrite Qred_correct. apply Qle_shift_div_l; [done |].
    rewrite Qred_correct, Qmult_0_l. apply Qsquare_nonneg.
  - intros Hys. change 0%Q with (Qred 0). apply Qred_complete.
    rewrite !Qred_correct, Hys. field.
    intros E. rewrite E in Hden. by apply Qlt_irrefl in Hden.
Qed.

Lemma foldl_fadd_nonnegative (l : vector) :
  forall q0, (0 <= q0)%Q -> Forall nonnegative l ->
    exists q, foldl fadd (Fin q0) l = Fin q /\ (0 <= q)%Q
      /\ (q0 = 0%Q -> Forall (fun x => x = Fin 0) l -> q = 0%Q).
Proof.
  induction l as [| x l IH]; intros q0 Hq0 Hall; simpl.
  - exists q0. by repeat split.
  - apply Forall_cons in Hall as [Hx Hall].
    destruct x as [qx | | |]; try done. simpl in Hx.
    destruct (IH (Qred (q0 + qx))) as (q & Hq & Hpos & Hzero); [| done |].
    { rewrite Qred_correct. lra. }
    exists q. split; [done |]. split; [done |].
    intros -> Hz. apply Forall_cons in Hz as [[= ->] Hz]. by apply Hzero.
Qed.

Lemma vsum_nonnegative (l : vector) :
  Forall nonnegative l ->
  exists q, vsum l = Fin q /\ (0 <= q)%Q
    /\ (Forall (fun x => x = Fin 0) l -> q = 0%Q).
Proof.
  intros Hall. destruct (foldl_fadd_nonnegative l 0) as (q & Hq & Hpos & Hz);
    [apply Qle_refl | done |].
  exists q. split; [done |]. split; [done |]. by apply Hz.
Qed.

Lemma fsquare_not_negative (x : float64) : not_negative (fsquare x).
Proof.
  destruct x as [a | | |]; simpl; try done.
  rewrite Qred_correct. apply Qsquare_nonneg.
Qed.

Lemma double_not_negative (x : float64) :
  not_negative x -> not_negative (fmul (Fin 2) x).
Proof.
  destruct x as [a | | |]; simpl; try done.
  intros Ha. rewrite Qred_correct. lra.
Qed.

Lemma Qsgn_nonneg (a : Q) : (0 <= a)%Q -> Qsgn a = 0%Z \/ Qsgn a = 1%Z.
Proof.
  unfold Qle, Qsgn. simpl. intros Ha. destruct (Qnum a); simpl; auto. lia.
Qed.

Lemma fdiv_not_negative (x y : float64) :
  not_negative x -> not_negative y -> not_negative (fdiv x y).
Proof.
  destruct x as [a | | |], y as [b | | |]; simpl; try done.
  - intros Ha Hb. destruct (Qeq_bool b 0) eqn:E.
    + by destruct (Qsgn_nonneg a Ha) as [-> | ->].
    + simpl. rewrite Qred_correct.
      assert (~ (b == 0)%Q) by (by apply Qeq_bool_neq).
      apply Qle_shift_div_l; lra.
  - intros _ Hb. by destruct (Qsgn_nonneg b Hb) as [-> | ->].
Qed.

Lemma fadd_not_negative (x y : float64) :
  not_negative x -> not_negative y -> not_negative (fadd x y).
Proof.
  destruct x as [a | | |], y as [b | | |]; simpl; try done.
  intros Ha Hb. rewrite Qred_correct. lra.
Qed.

Lemma vsum_not_negative (l : vector) :
  Forall not_negative l -> not_negative (vsum l).
Proof.
  unfold vsum. assert (H0 : not_negative fzero) by apply Qle_refl.
  revert H0. generalize fzero.
  induction l as [| x l IH]; intros acc Hacc Hl; simpl; [done |].
  apply Forall_cons in Hl as [Hx Hl].
  apply IH; [by apply fadd_not_negative | done].
Qed.

Lemma Forall_stretch {A} (P : A -> Prop) (n : nat) (l : list A) :
  Forall P l -> Forall P (stretch n l).
Proof.
  intros Hl. destruct l as [| x [| y l]]; simpl; try done.
  apply Forall_cons in Hl as [Hx _]. by apply Forall_replicate.
Qed.

Lemma Forall_zip_with_both {A B C} (f : A -> B -> C)
    (P : A -> Prop) (Q : B -> Prop) (R : C -> Prop) (l : list A) (k : list B) :
  (forall x y, P x -> Q y -> R (f x y)) ->
  Forall P l -> Forall Q k -> Forall R (zip_with f l k).
Proof.
  intros Hf Hl. revert k. induction Hl as [| x l Hx Hl IH]; intros k Hk; [constructor |].
  destruct Hk as [| y k Hy Hk]; simpl; [constructor |].
  constructor; [by apply Hf | by apply IH].
Qed.

(** The entries of an elementwise operation are values of the operation on
    entries of its operands, whatever the broadcasting. *)
Lemma vec_binop_entries f (P Q R : float64 -> Prop) (a b c : vector) :
  (forall x y, P x -> Q y -> R (f x y)) ->
  Forall P a -> Forall Q b -> vec_binop f a b = Ok c -> Forall R c.
Proof.
  intros Hf Ha Hb. unfold vec_binop.
  destruct (broadcast_dim _ _) as [n |]; [| done]. intros [= <-].
  apply (Forall_zip_with_both f P Q R); [done | by apply Forall_stretch..].
Qed.

Lemma binop_entries f (P Q R : float64 -> Prop) (a b c : matrix) :
  (forall x y, P x -> Q y -> R (f x y)) ->
  Forall (Forall P) a -> Forall (Forall Q) b ->
  binop f a b = Ok c -> Forall (Forall R) c.
Proof.
  intros Hf Ha Hb. unfold binop.
  destruct (broadcast_dim (nrows a) _) as [r |]; [| done].
  destruct (broadcast_dim (ncols a) _) as [n |]; [| done]. intros [= <-].
  apply (Forall_zip_with_both _ (Forall P) (Forall Q) (Forall R));
    [| by apply Forall_stretch..].
  intros ra rb Hra Hrb.
  apply (Forall_zip_with_both f P Q R); [done | by apply Forall_stretch..].
Qed.

Lemma map_matrix_entries (f : float64 -> float64) (P R : float64 -> Prop)
    (m : matrix) :
  (forall x, P x -> R (f x)) ->
  Forall (Forall P) m -> Forall (Forall R) (map_matrix f m).
Proof.
  intros Hf Hm. unfold map_matrix.
  induction Hm as [| r m Hr Hm IH]; simpl; constructor; [| done].
  clear IH Hm. induction Hr as [| x r Hx Hr IH]; simpl; constructor; auto.
Qed.

Lemma all_entries (m : matrix) : Forall (Forall (fun _ : float64 => True)) m.
Proof.
  apply Forall_forall. intros r _. by apply Forall_forall.
Qed.

Section LikelihoodValue.

Context (ydata_norm exp_var : matrix).

(** X5.  Whatever the data, the standard deviations and the simulated
    trajectories hold, finite or not, and however their shapes broadcast,
    a value the likelihood returns is never negative: it is [NaN], [+inf]
    or a number that is at least 0. *)
Theorem likelihood_never_negative :
  forall (mcmc : MCMC) (position : vector) (v : float64),
    (likelihood ydata_norm exp_var mcmc position).2 = Ok v ->
    not_negative v.
Proof.
  intros mcmc position v. rewrite likelihood_unfold. cbn [snd].
  destruct (simulate_fn mcmc (Some position) true) as [ysim | e]; [| done].
  rewrite rbind_ok.
  destruct (extract_records ysim obs_names) as [a | e]; [| done].
  rewrite rbind_ok.
  destruct (normalize a) as [n | e]; [| done]. rewrite rbind_ok.
  destruct (binop fsub ydata_norm n) as [diff | e]; [| done]. rewrite rbind_ok.
  destruct (binop fdiv _ _) as [terms | e] eqn:Hterms; [| done].
  rewrite rbind_ok. intros [= <-].
  apply vsum_not_negative, Forall_concat.
  apply (binop_entries fdiv not_negative not_negative not_negative _ _ _
           fdiv_not_negative) in Hterms; [done | |].
  - apply (map_matrix_entries fsquare (fun _ => True)); [| apply all_entries].
    intros x _. apply fsquare_not_negative.
  - apply (map_matrix_entries _ not_negative); [apply double_not_negative |].
    apply (map_matrix_entries fsquare (fun _ => True)); [| apply all_entries].
    intros x _. apply fsquare_not_negative.
Qed.

(** X6.  When the solver fails, the likelihood makes its one solver call
    and raises the solver's exception; when the solver returns a record
    array that lacks one of the three observables, or that has no record,
    the likelihood raises [ValueError] after the call. *)
Theorem likelihood_failures :
  forall (mcmc : MCMC) (position : vector),
    (forall e, simulate_fn mcmc (Some position) true = Raise e ->
       likelihood ydata_norm exp_var mcmc position
       = ([EvSimulate (Some position) true], Raise e))
    /\ (forall ysim name,
          simulate_fn mcmc (Some position) true = Ok ysim ->
          name ∈ obs_names -> is_ok (field ysim name) = false ->
          likelihood ydata_norm exp_var mcmc position
          = ([EvSimulate (Some position) true], Raise ValueError))
    /\ (forall ysim,
          simulate_fn mcmc (Some position) true = Ok ysim ->
          records 0 ysim ->
          likelihood ydata_norm exp_var mcmc position
          = ([EvSimulate (Some position) true], Raise ValueError)).
Proof.
  intros mcmc position. split; [| split].
  - intros e He. by rewrite likelihood_unfold, He.
  - intros ysim name Hsim Hin Hmiss.
    rewrite likelihood_unfold, Hsim, rbind_ok.
    by rewrite (extract_records_raises ysim obs_names name).
  - intros ysim Hsim Hrec.
    rewrite likelihood_unfold, Hsim, rbind_ok. unfold solver_call. f_equal.
    destruct (decide (Forall (fun name => is_ok (field ysim name) = true) obs_names))
      as [Hall | Hnot].
    + destruct (extract_records_entries 0 ysim obs_names) as (E & -> & HE & _);
        [done.. |].
      rewrite rbind_ok. by destruct E.
    + apply not_Forall_Exists in Hnot; [| intros x; apply _].
      apply Exists_exists in Hnot as (name & Hin & Hmiss).
      simpl in Hmiss.
      assert (is_ok (field ysim name) = false) as Hfalse
        by (by destruct (is_ok (field ysim name))).
      by rewrite (extract_records_raises ysim obs_names name).
Qed.

End LikelihoodValue.

Lemma likelihood_never_negative_witness :
  (likelihood toy_data toy_sd toy_mcmc [Fin 0]).2 = Ok (Fin 2)
  /\ not_negative (Fin 2).
Proof.
  assert (H : (likelihood toy_data toy_sd toy_mcmc [Fin 0]).2 = Ok (Fin 2))
    by (vm_compute; reflexivity).
  split; [exact H |].
  exact (likelihood_never_negative toy_data toy_sd toy_mcmc [Fin 0] (Fin 2) H).
Defined.

(** ** The prior *)

Lemma prior_terms_nonnegative (position mean : vector) :
  Forall (fun x => is_finite x = true) position ->
  Forall (fun x => is_finite x = true) mean ->
  length position = length mean ->
  Forall nonnegative
    (map (fun x => fdiv x (fmul (Fin 2) prior_var))
         (map fsquare (zip_with fsub position mean)))
  /\ (position = mean ->
      Forall (fun x => x = Fin 0)
        (map (fun x => fdiv x (fmul (Fin 2) prior_var))
             (map fsquare (zip_with fsub position mean)))).
Proof.
  revert mean. induction position as [| x position IH];
    intros [| mu mean] Hp Hm Hlen; try done.
  apply Forall_cons in Hp as [Hx Hp]. apply Forall_cons in Hm as [Hmu Hm].
  apply is_finite_Fin in Hx as [qx ->]. apply is_finite_Fin in Hmu as [qm ->].
  destruct (IH mean Hp Hm) as [Hnn Hz]; [by injection Hlen |].
  change (fmul (Fin 2) prior_var) with (Fin 12) in *.
  destruct (penalty_term_finite qx qm 12) as (q & Hq & Hpos & Hzero); [lra |].
  cbn [zip_with map]. rewrite Hq. split.
  - by constructor.
  - intros [= -> ->]. constructor; [| by apply Hz].
    f_equal. by apply Hzero.
Qed.

(** X7.  A value the prior returns is never negative, whatever the
    position and the prior means hold: it is [NaN], [+inf] or a number that
    is at least 0.  At the prior mean itself, when its coordinates are
    finite, the prior is 0. *)
Theorem prior_never_negative :
  forall (mean : vector) (mcmc : MCMC),
    (forall position v, prior mean mcmc position = Ok v -> not_negative v)
    /\ (Forall (fun x => is_finite x = true) mean ->
        prior mean mcmc mean = Ok (Fin 0)).
Proof.
  intros mean mcmc. split.
  - intros position v. unfold prior.
    destruct (vec_binop fsub position mean) as [diff | e]; [| done].
    rewrite rbind_ok. intros [= <-]. apply vsum_not_negative.
    induction diff as [| d diff IH]; simpl; constructor; [| done].
    apply fdiv_not_negative; [apply fsquare_not_negative |].
    vm_compute. discriminate.
  - intros Hm. unfold prior. rewrite vec_binop_same by done. rewrite rbind_ok.
    destruct (prior_terms_nonnegative mean mean Hm Hm eq_refl) as [Hnn Hz].
    destruct (vsum_nonnegative _ Hnn) as (q & Hq & _ & Hzero).
    rewrite Hq. do 2 f_equal. by apply Hzero, Hz.
Qed.

Lemma prior_never_negative_witness :
  prior [Fin 1; Fin (-3)] toy_mcmc [Fin 2; Fin 0] = Ok (Fin (5 # 6))
  /\ not_negative (Fin (5 # 6))
  /\ prior [Fin 1; Fin (-3)] toy_mcmc [Fin 1; Fin (-3)] = Ok (Fin 0).
Proof.
  destruct (prior_never_negative [Fin 1; Fin (-3)] toy_mcmc) as [Hsign Hzero].
  assert (H : prior [Fin 1; Fin (-3)] toy_mcmc [Fin 2; Fin 0] = Ok (Fin (5 # 6)))
    by (vm_compute; reflexivity).
  split; [exact H |]. split; [exact (Hsign _ _ H) |].
  apply Hzero. repeat constructor.
Defined.

Lemma zip_with_replicate_l {A B C} (g : A -> B -> C) (x : A) (l : list B) :
  zip_with g (replicate (length l) x) l = map (g x) l.
Proof. induction l as [| y l IH]; simpl; [done | by rewrite IH]. Qed.

Lemma zip_with_replicate_right {A B C} (g : A -> B -> C) (l : list A) (y : B) :
  zip_with g l (replicate (length l) y) = map (fun x => g x y) l.
Proof. induction l as [| x l IH]; simpl; [done | by rewrite IH]. Qed.

Lemma prior_single_mean (mu : float64) (mcmc : MCMC) (position : vector) :
  prior [mu] mcmc position
  = Ok (vsum (map (fun x => prior_term x mu prior_var) position)).
Proof.
  unfold prior, vec_binop.
  assert (broadcast_dim (length position) (length [mu]) = Some (length position))
    as ->.
  { unfold broadcast_dim. simpl. by destruct position as [| ? [| ? ?]]. }
  assert (stretch (length position) position = position) as ->
    by (by destruct position as [| ? [| ? ?]]).
  simpl stretch. rewrite zip_with_replicate_right, rbind_ok, !map_map. done.
Qed.

(** X8.  The prior returns a value exactly when the position has as many
    coordinates as there are prior means, or one of the two has a single
    entry; otherwise it raises [ValueError].  A single coordinate is
    broadcast and silently compared with every prior mean, and a single
    prior mean with every coordinate. *)
Theorem prior_broadcasts_single_coordinate :
  forall (mean : vector) (mcmc : MCMC),
    (forall position,
       length position = length mean \/ length position = 1 \/ length mean = 1 ->
       exists v, prior mean mcmc position = Ok v)
    /\ (forall position,
          length position <> length mean ->
          length position <> 1 -> length mean <> 1 ->
          prior mean mcmc position = Raise ValueError)
    /\ (forall x, prior mean mcmc [x]
                  = Ok (vsum (map (fun mu => prior_term x mu prior_var) mean)))
    /\ (forall mu position,
          mean = [mu] ->
          prior mean mcmc position
          = Ok (vsum (map (fun x => prior_term x mu prior_var) position))).
Proof.
  intros mean mcmc.
  assert (Hone : forall x, prior mean mcmc [x]
            = Ok (vsum (map (fun mu => prior_term x mu prior_var) mean))).
  { intros x. unfold prior, vec_binop.
    assert (broadcast_dim (length [x]) (length mean) = Some (length mean)) as ->.
    { unfold broadcast_dim. simpl. by destruct mean as [| ? [| ? ?]]. }
    rewrite (stretch_id _ mean) by done. simpl stretch.
    rewrite zip_with_replicate_l, rbind_ok, !map_map. done. }
  split; [| split; [| split]].
  - intros position [Heq | [Hp | Hm]].
    + unfold prior. rewrite vec_binop_same by done. rewrite rbind_ok. by eexists.
    + destruct position as [| x [| ? ?]]; try done. rewrite Hone. by eexists.
    + destruct mean as [| mu [| ? ?]]; try done.
      rewrite prior_single_mean. by eexists.
  - intros position Hne Hp Hm. unfold prior, vec_binop, broadcast_dim.
    destruct (Nat.eqb_spec (length position) (length mean)); [done |].
    destruct (Nat.eqb_spec (length position) 1); [done |].
    by destruct (Nat.eqb_spec (length mean) 1).
  - exact Hone.
  - intros mu position ->. apply prior_single_mean.
Qed.

(** ** The script's other paths *)


Lemma io_for_prints {A} (xs : list A) (line : A -> event) :
  io_for xs (fun x => emit (line x)) = (map line xs, Ok tt).
Proof.
  induction xs as [| x xs IH]; simpl; [done |].
  rewrite IH. reflexivity.
Qed.

Lemma take_indices_in_bounds (a : vector) (idx : list nat) :
  in_bounds a idx -> take_indices a idx = Ok (map (at_index a) idx).
Proof.
  unfold in_bounds. induction idx as [| i idx IH]; intros H; simpl; [done |].
  apply Forall_cons in H as [Hi H]. unfold at_index at 1.
  destruct (lookup_lt_is_Some_2 a i Hi) as [x ->]. by rewrite IH.
Qed.

Lemma take_indices_out_of_bounds (a : vector) (idx : list nat) :
  ~ in_bounds a idx -> take_indices a idx = Raise IndexError.
Proof.
  unfold in_bounds. induction idx as [| i idx IH]; intros H; simpl.
  - destruct H. constructor.
  - destruct (a !! i) as [x |] eqn:Hx; [| done].
    rewrite IH; [done |]. intros Hall. apply H. constructor; [| done].
    by eapply lookup_lt_Some.
Qed.

Section ScriptPaths.

Context (ydata_norm exp_var : matrix) (log10 : float64 -> float64)
        (model : Model) (bayessb_run : MCMCOpts -> io MCMC)
        (odesolve : Model -> vector -> result recarray).

Lemma report_trace (ps : list Param) (mcmc : MCMC) :
  report log10 ps mcmc
  = match fitted_values mcmc with
    | Ok fitted =>
        (report_headings ++ map (report_line log10) (zip ps fitted), Ok tt)
    | Raise e => (report_headings, Raise e)
    end.
Proof.
  unfold report, print. rewrite !iobind_emit.
  destruct (fitted_values mcmc) as [fitted | e]; [| done].
  rewrite iobind_lift_ok.
  change (fun pv : Param * float64 => emit (EvPrint _ _))
    with (fun pv => emit (report_line log10 pv)).
  by rewrite io_for_prints.
Qed.

(** X9.  The report prints its two heading lines and then one line per
    estimated parameter paired with the value [cur_params] holds at the
    matching index of [estimate_idx], as many lines as the shorter of the
    two lists, each with [log10(fitted / nominal)].  When an index is
    outside [cur_params] it raises [IndexError] after the heading lines. *)
Theorem report_prints_fitted_parameters :
  forall (ps : list Param) (mcmc : MCMC),
    (in_bounds (cur_params mcmc) (estimate_idx mcmc) ->
       report log10 ps mcmc
       = (report_headings
          ++ map (report_line log10)
               (zip ps (map (at_index (cur_params mcmc)) (estimate_idx mcmc))),
          Ok tt)
       /\ length (report log10 ps mcmc).1
          = 2 + Nat.min (length ps) (length (estimate_idx mcmc)))
    /\ (~ in_bounds (cur_params mcmc) (estimate_idx mcmc) ->
          report log10 ps mcmc = (report_headings, Raise IndexError)).
Proof.
  intros ps mcmc. rewrite report_trace. unfold fitted_values. split.
  - intros Hin. rewrite take_indices_in_bounds by done. split; [done |].
    simpl. by rewrite length_map, length_zip, length_map.
  - intros Hout. by rewrite take_indices_out_of_bounds.
Qed.

(** X10.  The scenario number selects the options: 2 adds Hessian guidance
    over the same estimated parameters, with the period [nsteps / 6], the
    quotient of two integers as a float, 50000/6, which is not a whole
    number of steps; any number other than 1 and 2 raises [RuntimeError]
    before the options are complete. *)
Theorem scenario_selection :
  forall s : Z,
    (s = 2%Z ->
       exists opts : MCMCOpts,
         script_opts ydata_norm exp_var log10 model s = Ok opts
         /\ opts !! "use_hessian" = Some (OBool true)
         /\ opts !! "hessian_period" = Some (OFloat (Fin (25000 # 3)))
         /\ opts !! "estimate_params" = Some (OParams (parameters_rules model))
         /\ opts !! "nsteps" = Some (OInt 50000))
    /\ (s <> 1%Z -> s <> 2%Z ->
          script_opts ydata_norm exp_var log10 model s
          = Raise (RuntimeError "unknown scenario number")).
Proof.
  intros s. split.
  - intros ->. eexists. split; [reflexivity |]. by repeat split.
  - intros H1 H2. unfold script_opts, choose_scenario.
    destruct (Z.eqb_spec s 1); [done |]. by destruct (Z.eqb_spec s 2).
Qed.




End ScriptPaths.


Lemma report_prints_fitted_parameters_witness :
  length (report (fun x => x) (parameters_rules receptor_model) toy_mcmc).1 = 4
  /\ report (fun x => x) (parameters_rules receptor_model) out_of_range_mcmc
     = (report_headings, Raise IndexError).
Proof.
  destruct (report_prints_fitted_parameters (fun x => x)
              (parameters_rules receptor_model) toy_mcmc) as [Hin _].
  destruct (report_prints_fitted_parameters (fun x => x)
              (parameters_rules receptor_model) out_of_range_mcmc) as [_ Hout].
  split.
  - destruct Hin as [_ ->]; [repeat constructor; simpl; lia | reflexivity].
  - apply Hout. intros H. unfold in_bounds in H.
    apply Forall_cons in H as [_ H]. apply Forall_cons in H as [H _].
    simpl in H. lia.
Defined.

(** ** The receptor and MAPK layers *)

Lemma steps_satisfy_spec (rs : list Rule) Q :
  steps_satisfy rs Q = true ->
  forall r l o, receptor_step rs r l o -> Q r l o = true.
Proof.
  intros H r l o Hstep. unfold steps_satisfy in H.
  rewrite forallb_forall in H. specialize (H r (all_receptors_complete r)).
  rewrite forallb_forall in H. exact (H _ Hstep).
Qed.

Lemma run_keeps (rs : list Rule) (P : receptor -> bool) :
  steps_satisfy rs (keeps P) = true ->
  forall r ls o, receptor_run rs r ls o ->
    forall r', o = Alive r' -> P r = true -> P r' = true.
Proof.
  intros Hk r ls o Hrun.
  induction Hrun as [r | r l r1 ls o Hstep Hrun IH | r l Hstep];
    intros r' Ho HP.
  - by injection Ho as <-.
  - apply (IH r' Ho).
    pose proof (steps_satisfy_spec rs _ Hk r l _ Hstep) as H.
    unfold keeps in H. by rewrite HP in H.
  - discriminate.
Qed.

(** X12.  Along any history under the rules of the receptor and MAPK
    layers a receptor keeps its type, and a receptor of type 2 whose ligand
    site is free never binds a ligand. *)
Theorem receptor_type_is_conserved :
  forall (r : receptor) (ls : list label) (r' : receptor),
    receptor_run all_rules r ls (Alive r') ->
    ty r' = ty r
    /\ (ty r = Ty2 -> bl r = false -> bl r' = false).
Proof.
  intros r ls r' Hrun. split.
  - assert (H : steps_satisfy all_rules
                  (keeps (fun x => bool_decide (ty x = ty r))) = true)
      by (destruct (ty r); vm_compute; reflexivity).
    pose proof (run_keeps all_rules _ H r ls _ Hrun r' eq_refl) as Hk.
    simpl in Hk. eapply bool_decide_eq_true_1. apply Hk.
    by apply bool_decide_eq_true_2.
  - intros Hty Hbl.
    assert (H : steps_satisfy all_rules
                  (keeps (fun x => bool_decide (ty x = Ty2) && negb (bl x))) = true)
      by (vm_compute; reflexivity).
    pose proof (run_keeps all_rules _ H r ls _ Hrun r' eq_refl) as Hk.
    simpl in Hk. rewrite Hty, Hbl in Hk.
    specialize (Hk eq_refl). apply andb_prop in Hk as [_ Hk].
    by apply negb_true_iff in Hk.
Qed.

Lemma receptor_type_is_conserved_witness :
  let r := Receptor false false false Ty2 StU LocC in
  let r' := Receptor false true false Ty2 StU LocE in
  ty r' = ty r /\ (ty r = Ty2 -> bl r = false -> bl r' = false).
Proof.
  intros r r'.
  apply (receptor_type_is_conserved r
           [(Generated "bind" [[with_site (free_UC "2") "bd" SNone];
                               [with_site (free_UC "1") "bd" SNone]] "", Fwd);
            internalization] r').
  apply run_step with (r' := Receptor false true false Ty2 StU LocC).
  { vm_compute. repeat (first [left; reflexivity | right]). }
  apply run_step with (r' := r').
  { vm_compute. repeat (first [left; reflexivity | right]). }
  apply run_stop.
Defined.

(** X13.  A receptor that starts with nothing bound, unphosphorylated and
    at the membrane is in a dimer whenever it is phosphorylated and whenever
    it is in the endosome: a phosphorylated dimer cannot dissociate, and a
    dimer cannot dissociate in the endosome. *)
Theorem active_receptors_are_dimers :
  forall (r : receptor) (ls : list label) (r' : receptor),
    fresh r = true ->
    receptor_run all_rules r ls (Alive r') ->
    (st r' = StP -> bd r' = true) /\ (loc r' = LocE -> bd r' = true).
Proof.
  intros r ls r' Hfresh Hrun.
  assert (H : steps_satisfy all_rules (keeps dimer_when_active) = true)
    by (vm_compute; reflexivity).
  assert (H0 : dimer_when_active r = true).
  { assert (Hall : forallb (fun x => implb (fresh x) (dimer_when_active x))
                     all_receptors = true) by (vm_compute; reflexivity).
    pose proof (check_all_receptors _ Hall r) as Hr. cbv beta in Hr.
    by rewrite Hfresh in Hr. }
  pose proof (run_keeps all_rules _ H r ls _ Hrun r' eq_refl H0) as Hk.
  unfold dimer_when_active in Hk. apply andb_prop in Hk as [H1 H2].
  split; intros Heq.
  - by rewrite bool_decide_eq_true_2 in H1.
  - by rewrite bool_decide_eq_true_2 in H2.
Qed.

Lemma active_receptors_are_dimers_witness :
  let r' := Receptor false true false Ty1 StU LocE in
  (st r' = StP -> bd r' = true) /\ (loc r' = LocE -> bd r' = true).
Proof.
  intros r'.
  apply (active_receptors_are_dimers (Receptor false false false Ty1 StU LocC)
           [(Generated "bind" [[with_site (free_UC "1") "bd" SNone];
                               [with_site (free_UC "1") "bd" SNone]] "", Fwd);
            internalization] r').
  - reflexivity.
  - apply run_step with (r' := Receptor false true false Ty1 StU LocC).
    { vm_compute. repeat (first [left; reflexivity | right]). }
    apply run_step with (r' := r').
    { vm_compute. repeat (first [left; reflexivity | right]). }
    apply run_stop.
Defined.

(** X14.  A step that phosphorylates a receptor is a cross-phosphorylation
    rule whose kinase is of type 1, 2 or 4 and whose substrate has the
    receptor's type, applied to a receptor in a dimer.  A step that
    dephosphorylates it is the catalytic rule of its type, which the loop
    names [dephosphoC_<type>_4] after the variable the previous loop left
    behind; it needs the [b] site bound and frees it. *)
Theorem phosphorylation_steps :
  forall (r : receptor) (l : label) (r' : receptor),
    receptor_step all_rules r l (Alive r') ->
    (st r = StU -> st r' = StP ->
       bd r = true
       /\ exists i, i ∈ ["1"; "2"; "4"]%string /\ l = cross_phospho_label i (ty r))
    /\ (st r = StP -> st r' = StU ->
          l = dephospho_label (ty r) /\ b r = true /\ b r' = false).
Proof.
  intros r l r' Hstep.
  assert (H : steps_satisfy all_rules phospho_step = true)
    by (vm_compute; reflexivity).
  pose proof (steps_satisfy_spec all_rules _ H r l _ Hstep) as Hs.
  unfold phospho_step in Hs. split.
  - intros HU HP. rewrite HU, HP in Hs.
    apply andb_prop in Hs as [Hbd Hex]. split; [done |].
    apply existsb_exists in Hex as (i & Hi & Hl).
    exists i. split; [by apply list_elem_of_In |].
    by apply bool_decide_eq_true_1 in Hl.
  - intros HP HU. rewrite HP, HU in Hs.
    apply andb_prop in Hs as [Hs Hb']. apply andb_prop in Hs as [Hl Hb].
    apply bool_decide_eq_true_1 in Hl. apply negb_true_iff in Hb'.
    split; [exact Hl |]. split; [exact Hb | exact Hb'].
Qed.

Lemma phosphorylation_steps_witness :
  let r := Receptor false true true Ty3 StP LocC in
  let r' := Receptor false true false Ty3 StU LocC in
  let l : label := (Named "dephosphoC_3_4"%string, Fwd) in
  receptor_step all_rules r l (Alive r')
  /\ l = dephospho_label (ty r) /\ b r = true /\ b r' = false.
Proof.
  intros r r' l.
  assert (Hstep : receptor_step all_rules r l (Alive r')).
  { vm_compute. repeat (first [left; reflexivity | right]). }
  split; [exact Hstep |].
  apply (phosphorylation_steps r l r' Hstep); reflexivity.
Defined.

Lemma run_degraded_last_in (rs : list Rule) :
  forallb (degraded_only_by rs degradation) all_receptors = true ->
  forall r ls o, receptor_run rs r ls o -> o = Degraded ->
    exists mid, ls = mid ++ [degradation].
Proof.
  intros Hdeg r ls o Hrun.
  induction Hrun as [r | r l r' ls o Hstep Hrun IH | r l Hstep]; intros Ho.
  - discriminate.
  - destruct IH as [mid ->]; [done |]. by exists (l :: mid).
  - pose proof (check_all_receptors _ Hdeg r) as H.
    unfold degraded_only_by in H. rewrite forallb_forall in H.
    specialize (H _ Hstep). simpl in H.
    apply andb_prop in H as [H _]. apply andb_prop in H as [Hl _].
    apply bool_decide_eq_true_1 in Hl. simpl in Hl. subst l. by exists [].
Qed.

Lemma run_degraded_internalized_in (rs : list Rule) :
  forallb (never_degraded_at_membrane rs) all_receptors = true ->
  forallb (degraded_only_by rs degradation) all_receptors = true ->
  forallb (internalized_only_by rs internalization) all_receptors = true ->
  forall r ls o, receptor_run rs r ls o -> o = Degraded -> loc r = LocC ->
    exists pre mid, ls = pre ++ internalization :: mid ++ [degradation].
Proof.
  intros Hmem Hdeg Hint r ls o Hrun.
  induction Hrun as [r | r l r' ls o Hstep Hrun IH | r l Hstep]; intros Ho HC.
  - discriminate.
  - destruct (decide (loc r' = LocC)) as [HC' | HE].
    + destruct IH as (pre & mid & ->); [done.. |]. by exists (l :: pre), mid.
    + pose proof (check_all_receptors _ Hint r) as H.
      unfold internalized_only_by, at_membrane in H.
      rewrite forallb_forall in H. specialize (H _ Hstep). simpl in H.
      rewrite (bool_decide_eq_true_2 _ HC) in H.
      rewrite bool_decide_eq_true_2 in H by (destruct (loc r'); congruence).
      simpl in H. apply andb_prop in H as [H _]. apply andb_prop in H as [Hl _].
      apply bool_decide_eq_true_1 in Hl. simpl in Hl. subst l.
      destruct (run_degraded_last_in rs Hdeg _ _ _ Hrun Ho) as [mid ->].
      by exists [], mid.
  - pose proof (check_all_receptors _ Hmem r) as H.
    unfold never_degraded_at_membrane, at_membrane in H.
    rewrite (bool_decide_eq_true_2 _ HC) in H.
    rewrite forallb_forall in H. specialize (H _ Hstep). discriminate.
Qed.

(** X15.  With the MAPK layer added, [GAP] binds only to a dimer of
    phosphorylated receptors whose [b] sites are free, and binding or
    releasing it changes nothing of a receptor but that site; the layer adds no way to the endosome and
    no degradation, so a receptor that starts at the membrane is still
    degraded only after an internalization step. *)
Theorem GAP_layer_keeps_receptor_fate :
  forall (r : receptor) (l : label) (r' : receptor),
    receptor_step all_rules r l (Alive r') ->
    l = GAP_binding \/ l = GAP_release ->
    st r = StP /\ bd r = true
    /\ r' = Receptor (bl r) (bd r) (b r') (ty r) (st r) (loc r)
    /\ (l = GAP_binding -> b r = false)
    /\ (l = GAP_release -> b r' = false)
    /\ (forall r0 ls, loc r0 = LocC ->
          receptor_run all_rules r0 ls Degraded ->
          exists pre mid, ls = pre ++ internalization :: mid ++ [degradation]).
Proof.
  intros r l r' Hstep Hl.
  assert (H : steps_satisfy all_rules GAP_step = true)
    by (vm_compute; reflexivity).
  pose proof (steps_satisfy_spec all_rules _ H r l _ Hstep) as Hs.
  unfold GAP_step in Hs.
  assert (bool_decide (l = GAP_binding) || bool_decide (l = GAP_release) = true)
    as Hor.
  { destruct Hl as [-> | ->]; [done |]. apply orb_true_r. }
  rewrite Hor in Hs.
  apply andb_prop in Hs as [Hs Hb]. apply andb_prop in Hs as [Hs Hr'].
  apply andb_prop in Hs as [Hst Hbd].
  apply bool_decide_eq_true_1 in Hst, Hr'.
  split; [done |]. split; [done |]. split; [done |].
  split; [| split].
  - intros ->. simpl in Hb. by apply negb_true_iff in Hb.
  - intros ->. simpl in Hb. by apply negb_true_iff in Hb.
  - intros r0 ls HC Hrun.
    eapply (run_degraded_internalized_in all_rules);
      [vm_compute; reflexivity | vm_compute; reflexivity
      | vm_compute; reflexivity | exact Hrun | reflexivity | exact HC].
Qed.

Lemma GAP_layer_keeps_receptor_fate_witness :
  let r := Receptor false true false Ty1 StP LocC in
  let r' := Receptor false true true Ty1 StP LocC in
  st r = StP /\ bd r = true
  /\ r' = Receptor (bl r) (bd r) (b r') (ty r) (st r) (loc r)
  /\ (GAP_binding = GAP_binding -> b r = false)
  /\ (GAP_binding = GAP_release -> b r' = false)
  /\ (forall r0 ls, loc r0 = LocC ->
        receptor_run all_rules r0 ls Degraded ->
        exists pre mid, ls = pre ++ internalization :: mid ++ [degradation]).
Proof.
  intros r r'.
  apply (GAP_layer_keeps_receptor_fate r GAP_binding r').
  - vm_compute. repeat (first [left; reflexivity | right]).
  - by left.
Defined.

(** ** What the declaration functions do to a model *)

Lemma extends_refl (m : Model) : extends m m.
Proof. by repeat split. Qed.

Lemma extends_trans (m1 m2 m3 : Model) :
  extends m1 m2 -> extends m2 m3 -> extends m1 m3.
Proof.
  intros (A1 & B1 & C1 & D1) (A2 & B2 & C2 & D2).
  repeat split; by etrans.
Qed.

Lemma well_behaved_block (ds : list decl) :
  Forall well_behaved ds -> well_behaved (block ds).
Proof.
  unfold block. induction ds as [| d ds IH] using rev_ind; intros Hall m.
  - simpl. split; [apply extends_refl | done].
  - apply Forall_app in Hall as [Hds Hd]. apply Forall_cons in Hd as [Hd _].
    rewrite foldl_app. simpl.
    destruct (IH Hds m) as [He Hr].
    destruct (Hd (foldl (fun m d => d m) m ds)) as [He' Hr'].
    split; [by eapply extends_trans | auto].
Qed.

Lemma well_behaved_for_each {A} (xs : list A) (body : A -> decl) :
  (forall x, well_behaved (body x)) -> well_behaved (for_each xs body).
Proof.
  intros Hb. unfold for_each.
  induction xs as [| x xs IH] using rev_ind; intros m.
  - simpl. split; [apply extends_refl | done].
  - rewrite foldl_app. simpl.
    destruct (IH m) as [He Hr].
    destruct (Hb x (foldl (fun m x => body x m) m xs)) as [He' Hr'].
    split; [by eapply extends_trans | auto].
Qed.

Lemma well_behaved_add_monomer mo : well_behaved (add_monomer mo).
Proof.
  intros m. split; [| done].
  repeat split; simpl; try done. by apply prefix_app_r.
Qed.

Lemma well_behaved_add_parameter p : well_behaved (add_parameter p).
Proof.
  intros m. split.
  - repeat split; simpl; try done. by apply prefix_app_r.
  - intros H r Hr. destruct (H r Hr) as [Hf Hq]. simpl.
    split; [apply elem_of_app; by left |].
    intros q Hrq. specialize (Hq q Hrq). apply elem_of_app. by left.
Qed.

Lemma well_behaved_add_initial i : well_behaved (add_initial i).
Proof.
  intros m. split; [| done].
  repeat split; simpl; try done. by apply prefix_app_r.
Qed.

Lemma extends_add_rule r m : extends m (add_rule r m).
Proof. repeat split; simpl; try done. by apply prefix_app_r. Qed.

Lemma rates_declared_add_rule r m :
  rates_declared m ->
  r_rate_forward r ∈ parameters m ->
  (forall q, r_rate_reverse r = Some q -> q ∈ parameters m) ->
  rates_declared (add_rule r m).
Proof.
  intros H Hf Hq r' Hr'. simpl in *.
  apply elem_of_app in Hr' as [Hr' | Hr']; [by apply H |].
  apply list_elem_of_singleton in Hr' as ->. done.
Qed.

Lemma well_behaved_rule_forward name lhs rhs pf :
  well_behaved (block [add_parameter pf;
    add_rule {| r_name := name; r_reactants := lhs; r_products := rhs;
                r_reversible := false;
                r_rate_forward := pf; r_rate_reverse := None |}]).
Proof.
  intros m. unfold block. simpl. split.
  - eapply extends_trans; [apply well_behaved_add_parameter | apply extends_add_rule].
  - intros H. apply rates_declared_add_rule; simpl.
    + by apply well_behaved_add_parameter.
    + apply elem_of_app. right. by apply list_elem_of_singleton.
    + done.
Qed.

Lemma well_behaved_rule_reversible name lhs rhs pf pr :
  well_behaved (block [add_parameter pf; add_parameter pr;
    add_rule {| r_name := name; r_reactants := lhs; r_products := rhs;
                r_reversible := true;
                r_rate_forward := pf; r_rate_reverse := Some pr |}]).
Proof.
  intros m. unfold block. simpl. split.
  - eapply extends_trans; [apply well_behaved_add_parameter |].
    eapply extends_trans; [apply well_behaved_add_parameter | apply extends_add_rule].
  - intros H. apply rates_declared_add_rule; simpl.
    + by do 2 apply well_behaved_add_parameter.
    + apply elem_of_app. left. apply elem_of_app. right.
      by apply list_elem_of_singleton.
    + intros q [= <-]. apply elem_of_app. right.
      by apply list_elem_of_singleton.
Qed.

Lemma well_behaved_bind_table cols rows row_site col_site :
  well_behaved (bind_table cols rows row_site col_site).
Proof.
  unfold bind_table. apply well_behaved_for_each. intros row.
  apply well_behaved_for_each. intros cell.
  destruct cell.2 as [klist |].
  - apply well_behaved_rule_reversible.
  - by apply well_behaved_block.
Qed.

Ltac each_declaration :=
  repeat (first [apply List.Forall_nil | apply List.Forall_cons]).

Lemma well_behaved_rec_events : well_behaved rec_events.
Proof.
  unfold rec_events. apply well_behaved_block. each_declaration.
  - apply well_behaved_bind_table.
  - apply well_behaved_bind_table.
  - apply well_behaved_bind_table.
  - apply well_behaved_for_each. intros i.
    apply well_behaved_for_each. intros j. apply well_behaved_rule_forward.
  - apply well_behaved_for_each. intros i. unfold dephospho.
    apply well_behaved_block. each_declaration.
    + apply well_behaved_rule_reversible.
    + apply well_behaved_rule_forward.
  - apply well_behaved_rule_reversible.
  - apply well_behaved_rule_forward.
Qed.

Lemma well_behaved_module_functions : Forall well_behaved module_functions.
Proof.
  unfold module_functions. each_declaration.
  - unfold rec_monomers. apply well_behaved_block. each_declaration;
      apply well_behaved_add_monomer.
  - unfold rec_initial. apply well_behaved_block. each_declaration;
      first [apply well_behaved_add_parameter | apply well_behaved_add_initial].
  - apply well_behaved_rec_events.
  - apply well_behaved_add_monomer.
  - unfold mapk_initial. apply well_behaved_block. each_declaration;
      first [apply well_behaved_add_parameter | apply well_behaved_add_initial].
  - apply well_behaved_rule_reversible.
Qed.

(** X16.  Each declaration function of the module only appends to the
    model it is given, and keeps the rate parameters of every rule among the
    model's parameters.  So in a model built by these functions, in any
    order and from any model with that property, [parameters_rules] names
    the forward rate of every rule and the reverse rate of every reversible
    one: under the default scenario the sampler estimates them all. *)
Theorem declarations_keep_rates_declared :
  forall (ds : list decl) (m : Model),
    Forall (fun d => d ∈ module_functions) ds ->
    rates_declared m ->
    let m' := block ds m in
    extends m m'
    /\ rates_declared m'
    /\ forall r, r ∈ rules m' ->
         r_rate_forward r ∈ parameters_rules m'
         /\ forall q, r_rate_reverse r = Some q -> q ∈ parameters_rules m'.
Proof.
  intros ds m Hds Hm m'.
  assert (Hwb : well_behaved (block ds)).
  { apply well_behaved_block. eapply Forall_impl; [exact Hds |].
    simpl. intros d Hd. pose proof well_behaved_module_functions as H.
    rewrite Forall_forall in H. by apply H. }
  destruct (Hwb m) as [He Hr]. specialize (Hr Hm).
  split; [done |]. split; [done |].
  intros r Hin. destruct (Hr r Hin) as [Hf Hq].
  assert (Huse : forall p, p ∈ parameters m' -> rule_uses r p = true ->
            p ∈ parameters_rules m').
  { intros p Hp Hu. unfold parameters_rules. apply list_elem_of_filter.
    split; [| done]. apply Is_true_true, existsb_exists.
    exists r. split; [by apply list_elem_of_In | done]. }
  split.
  - apply Huse; [done |]. unfold rule_uses, same_parameter.
    by rewrite bool_decide_eq_true_2.
  - intros q Hrq. apply Huse; [by apply Hq |].
    unfold rule_uses, same_parameter. rewrite Hrq.
    rewrite (bool_decide_eq_true_2 (p_name q = p_name q)) by done.
    apply orb_true_r.
Qed.

Lemma declarations_keep_rates_declared_witness :
  extends empty_model receptor_mapk_model
  /\ rates_declared receptor_mapk_model.
Proof.
  destruct (declarations_keep_rates_declared
              [rec_monomers; mapk_monomers; rec_initial; mapk_initial;
               rec_events; mapk_events] empty_model) as (He & Hr & _).
  - repeat constructor; unfold module_functions; set_solver.
  - intros r0 Hr0. by apply elem_of_nil in Hr0.
  - split; [exact He | exact Hr].
Defined.

(** ** The default scenario *)


















Section DefaultScenario.

Context (ydata_norm exp_var : matrix) (log10 : float64 -> float64)
        (model : Model).


End DefaultScenario.


(** ** Plotting *)

Lemma iobind_ok_eq {A B} (tr : list event) (a : A) (f : A -> io B) :
  iobind (tr, Ok a) f = (tr ++ (f a).1, (f a).2).
Proof. simpl. by destruct (f a). Qed.

Lemma io_for_traces {A} (xs : list A) (body : A -> io unit)
    (trace : A -> list event) :
  (forall x, body x = (trace x, Ok tt)) ->
  io_for xs body = (flat_map trace xs, Ok tt).
Proof.
  intros Hb. induction xs as [| x xs IH]; simpl; [done |].
  by rewrite Hb, IH.
Qed.

Section Plotting.

Context (ydata_norm : matrix) (model : Model)
        (odesolve : Model -> vector -> result recarray).

Lemma plot_fit_unfold (mcmc : MCMC) :
  plot_fit ydata_norm model odesolve mcmc
  = let head := legend_events ++ [EvOdesolve tspan] in
    let sim := EvSimulate None true in
    match odesolve model tspan with
    | Raise e => (head, Raise e)
    | Ok yinitial =>
    match extract_records yinitial obs_names with
    | Raise e => (head, Raise e)
    | Ok a =>
    match simulate_fn mcmc None true with
    | Raise e => (head ++ [sim], Raise e)
    | Ok ysim =>
    match extract_records ysim obs_names with
    | Raise e => (head ++ [sim], Raise e)
    | Ok b =>
    match normalize a with
    | Raise e => (head ++ [sim], Raise e)
    | Ok n_initial =>
    if negb (Nat.eqb (length tspan) (nrows n_initial))
    then (head ++ [sim], Raise ValueError)
    else if negb (Nat.eqb (length tspan) (nrows ydata_norm))
    then (head ++ [sim; EvPlot tspan n_initial], Raise ValueError)
    else
    match normalize b with
    | Raise e =>
        (head ++ [sim; EvPlot tspan n_initial; EvPlot tspan ydata_norm], Raise e)
    | Ok n_final =>
        if negb (Nat.eqb (length tspan) (nrows n_final))
        then (head ++ [sim; EvPlot tspan n_initial; EvPlot tspan ydata_norm],
              Raise ValueError)
        else
        (head ++ [sim; EvPlot tspan n_initial; EvPlot tspan ydata_norm;
                  EvPlot tspan n_final]
         ++ flat_map line_styling
              (zip (seq 0 (Nat.min (ncols n_initial)
                             (Nat.min (ncols ydata_norm) (ncols n_final))))
                   colors)
         ++ [EvShow], Ok tt)
    end end end end end end.
Proof.
  unfold plot_fit, simulate, plt_plot. cbv zeta.
  rewrite (io_for_traces _ _ (fun style => [EvPlotStyle style])) by done.
  rewrite iobind_ok_eq, !iobind_emit.
  destruct (odesolve model tspan) as [yinitial | e]; [| reflexivity].
  rewrite iobind_lift_ok.
  destruct (extract_records yinitial obs_names) as [a | e]; [| reflexivity].
  rewrite iobind_lift_ok.
  destruct (simulate_fn mcmc None true) as [ysim | e]; [| reflexivity].
  rewrite iobind_ok_eq.
  destruct (extract_records ysim obs_names) as [b | e]; [| reflexivity].
  rewrite iobind_lift_ok.
  destruct (normalize a) as [n_initial | e]; [| reflexivity].
  rewrite iobind_lift_ok.
  destruct (Nat.eqb (length tspan) (nrows n_initial)); [| reflexivity].
  rewrite iobind_emit.
  destruct (Nat.eqb (length tspan) (nrows ydata_norm)); [| reflexivity].
  rewrite iobind_emit.
  destruct (normalize b) as [n_final | e]; [| reflexivity].
  rewrite iobind_lift_ok.
  destruct (Nat.eqb (length tspan) (nrows n_final)); [| reflexivity].
  rewrite iobind_emit.
  rewrite (io_for_traces _ _ line_styling) by done.
  reflexivity.
Qed.

(** X17.  Plotting first draws the six legend entries and the legend, and
    then calls [pysb.integrate.odesolve(model, tspan)].  When that call
    fails its exception ends the plot: [mcmc.simulate] is not called, and
    nothing but the legend entries has been drawn.  A plot that completes
    has called the solver twice, [odesolve] and then [mcmc.simulate] at the
    sampler's current position, has found ten rows, one per entry of
    [tspan], in both rescaled trajectories and in the data, and has drawn
    the rescaled nominal trajectories, the data and the rescaled fitted
    trajectories over [tspan], in this order, then styled the lines and
    ended with [plt.show()]. *)
Theorem plot_fit_solver_calls :
  forall mcmc : MCMC,
    let p := plot_fit ydata_norm model odesolve mcmc in
    (forall e, odesolve model tspan = Raise e ->
       p = (legend_events ++ [EvOdesolve tspan], Raise e))
    /\ (p.2 = Ok tt ->
          exists yinitial ysim a b n_initial n_final,
            odesolve model tspan = Ok yinitial
            /\ simulate_fn mcmc None true = Ok ysim
            /\ extract_records yinitial obs_names = Ok a
            /\ extract_records ysim obs_names = Ok b
            /\ normalize a = Ok n_initial
            /\ normalize b = Ok n_final
            /\ nrows n_initial = 10 /\ nrows ydata_norm = 10
            /\ nrows n_final = 10
            /\ p.1 = legend_events
                     ++ [EvOdesolve tspan; EvSimulate None true;
                         EvPlot tspan n_initial; EvPlot tspan ydata_norm;
                         EvPlot tspan n_final]
                     ++ flat_map line_styling
                          (zip (seq 0 (Nat.min (ncols n_initial)
                                         (Nat.min (ncols ydata_norm)
                                                  (ncols n_final))))
                               colors)
                     ++ [EvShow]).
Proof.
  intros mcmc p. unfold p. rewrite plot_fit_unfold. cbv zeta. split.
  - intros e He. by rewrite He.
  - destruct (odesolve model tspan) as [yinitial | e] eqn:H1; [| done].
    destruct (extract_records yinitial obs_names) as [a | e] eqn:H2; [| done].
    destruct (simulate_fn mcmc None true) as [ysim | e] eqn:H3; [| done].
    destruct (extract_records ysim obs_names) as [b | e] eqn:H4; [| done].
    destruct (normalize a) as [n_initial | e] eqn:H5; [| done].
    destruct (Nat.eqb_spec (length tspan) (nrows n_initial)) as [R1 |]; [| done].
    destruct (Nat.eqb_spec (length tspan) (nrows ydata_norm)) as [R2 |]; [| done].
    cbn [negb].
    destruct (normalize b) as [n_final | e] eqn:H6; [| done].
    destruct (Nat.eqb_spec (length tspan) (nrows n_final)) as [R3 |]; [| done].
    intros _. cbn [negb fst].
    exists yinitial, ysim, a, b, n_initial, n_final.
    do 6 (split; [done |]).
    split; [by rewrite <- R1 |]. split; [by rewrite <- R2 |].
    split; [by rewrite <- R3 |].
    by rewrite <- !app_assoc.
Qed.

End Plotting.

Lemma plot_fit_solver_calls_witness :
  (plot_fit ten_point_data receptor_model ten_point_odesolve ten_point_mcmc).2
  = Ok tt
  /\ length (plot_fit ten_point_data receptor_model ten_point_odesolve
              ten_point_mcmc).1 = 31
  /\ plot_fit ten_point_data receptor_model failing_odesolve ten_point_mcmc
     = (legend_events ++ [EvOdesolve tspan],
        Raise (LibraryError "integration failed")).
Proof.
  split; [vm_compute; reflexivity |]. split; [vm_compute; reflexivity |].
  by apply (plot_fit_solver_calls ten_point_data receptor_model failing_odesolve
              ten_point_mcmc).
Defined.
